(** * Bloom filter (bloomfilter.py): model and verified properties

    The development follows the Python class [BloomFilter]:

    - the sizing functions [get_size] and [get_hash_count] ([math.log],
      float arithmetic, [int()]);
    - the constructor [__init__];
    - the methods [add] and [check], which read and write [self.bit_array].

    The sizing functions are given in two readings.  In the first, Python
    floats are real numbers: [math.log] is [ln] on the positive reals, [/]
    is real division, [int()] truncates toward zero; rounding, overflow
    and NaN are outside it.  The constructor is modelled on this reading,
    and what is proved of it rests on signs and margins of the computed
    values only.  In the second (module [Double]) floats are IEEE-754
    binary64 values with every operation rounded to nearest even, as the
    code computes them; the C library's [log] and [pow] are parameters
    there.  What is said about the computed numbers themselves is said of
    the second reading.

    Python integers are [Z]; [%] on integers is [Z.modulo] (the result has
    the sign of the divisor, as in Python).

    [mmh3.hash] (MurmurHash3, a C extension) and the initial contents of a
    fresh [bitarray] are not part of the repository; they are parameters of
    the model. *)

From Stdlib Require Import Reals Lra Lia ZArith String SpecFloat.
From stdpp Require Import base list.

Local Open Scope Z_scope.

(** ** Exceptions and results *)

Inductive exn : Set :=
  | ValueError
  | ZeroDivisionError
  | IndexError
  | OverflowError.

Inductive result (A : Type) : Type :=
  | Ok (a : A)
  | Raise (e : exn).

Arguments Ok {A} a.
Arguments Raise {A} e.

#[global] Instance result_ret : MRet result := fun A a => Ok a.

#[global] Instance result_bind : MBind result := fun A B f r =>
  match r with
  | Ok a => f a
  | Raise e => Raise e
  end.

(** ** Python numeric primitives *)

Module Py.

(** [math.log(x)]: natural logarithm; [ValueError] outside the positive
    reals. *)
Definition math_log (x : R) : result R :=
  if Rlt_dec 0 x then Ok (ln x) else Raise ValueError.

(** Float division [x / y]. *)
Definition float_div (x y : R) : result R :=
  if Req_dec_T y 0 then Raise ZeroDivisionError else Ok (x / y)%R.

(** True division of two integers, [m / n]. *)
Definition int_truediv (m n : Z) : result R :=
  if Z.eq_dec n 0 then Raise ZeroDivisionError else Ok (IZR m / IZR n)%R.

(** [int(x)] on a float: truncation toward zero. *)
Definition int_of_float (x : R) : Z :=
  if Rle_dec 0 x then Zfloor x else Zceil x.

(** [a % b] on integers. *)
Definition int_mod (a b : Z) : result Z :=
  if Z.eq_dec b 0 then Raise ZeroDivisionError else Ok (a mod b).

(** [range(k)]: the integers [0, 1, ..., k-1]; empty when [k <= 0]. *)
Definition range (k : Z) : list Z :=
  List.map Z.of_nat (seq 0 (Z.to_nat k)).

End Py.

(** ** Python floats as IEEE-754 doubles *)

Module Double.

Definition prec : Z := 53.
Definition emax : Z := 1024.

(** A Python [float]. *)
Definition double : Type := spec_float.

(** [x * y], [x / y] on the bits and [-x]: IEEE-754, round to nearest
    even. *)
Definition mul : double -> double -> double := SFmul prec emax.
Definition div : double -> double -> double := SFdiv prec emax.
Definition opp : double -> double := SFopp.

Definition is_finite (x : double) : bool :=
  match x with
  | S754_zero _ | S754_finite _ _ _ => true
  | S754_infinity _ | S754_nan => false
  end.

(** The real number that a double stands for (0 for the non-finite
    ones). *)
Definition value (x : double) : R :=
  match x with
  | S754_finite s m e =>
      let a := if 0 <=? e then (IZR (Zpos m) * IZR (2 ^ e))%R
               else (IZR (Zpos m) / IZR (2 ^ (- e)))%R in
      if s then (- a)%R else a
  | _ => 0%R
  end.

(** The conversion of an integer operand to a float: the nearest double;
    [OverflowError] when the integer is too large. *)
Definition of_int (n : Z) : result double :=
  let x := binary_normalize prec emax n 0 false in
  if is_finite x then Ok x else Raise OverflowError.

(** Float division [x / y]. *)
Definition float_truediv (x y : double) : result double :=
  match y with
  | S754_zero _ => Raise ZeroDivisionError
  | _ => Ok (div x y)
  end.

(** True division of two integers, [m / n]: the correctly rounded
    quotient; [OverflowError] when it is too large for a float. *)
Definition int_truediv (m n : Z) : result double :=
  if Z.eq_dec n 0 then Raise ZeroDivisionError
  else
    match m with
    | Z0 => Ok (S754_zero (n <? 0))
    | _ =>
        let q := div (S754_finite (m <? 0) (Z.to_pos (Z.abs m)) 0)
                     (S754_finite (n <? 0) (Z.to_pos (Z.abs n)) 0) in
        if is_finite q then Ok q else Raise OverflowError
    end.

(** [int(x)] on a float: truncation toward zero; [ValueError] on NaN,
    [OverflowError] on an infinity. *)
Definition int_of_float (x : double) : result Z :=
  match x with
  | S754_nan => Raise ValueError
  | S754_infinity _ => Raise OverflowError
  | S754_zero _ => Ok 0
  | S754_finite s m e =>
      Ok (cond_Zopp s (if 0 <=? e then Zpos m * 2 ^ e
                       else Zpos m / 2 ^ (- e)))
  end.

(** The doubles 1.0, 2.0, 0.5 and 0.05 (the float nearest to 1/20). *)
Definition one : double := S754_finite false 4503599627370496 (-52).
Definition two : double := S754_finite false 4503599627370496 (-51).
Definition half : double := S754_finite false 4503599627370496 (-53).
Definition p005 : double := S754_finite false 0x1999999999999a (-57).

Section Libm.

(** The C library's [log] and [pow], on doubles. *)
Variable libm_log : double -> double.
Variable libm_pow : double -> double -> double.

(** [math.log(x)]: a [ValueError] outside the positive numbers, and when
    the library returns a non-finite value for a finite argument; NaN and
    [+inf] are passed through. *)
Definition math_log (x : double) : result double :=
  match x with
  | S754_nan => Ok S754_nan
  | S754_infinity false => Ok (S754_infinity false)
  | S754_infinity true => Raise ValueError
  | S754_zero _ => Raise ValueError
  | S754_finite true _ _ => Raise ValueError
  | S754_finite false _ _ =>
      let r := libm_log x in
      if is_finite r then Ok r else Raise ValueError
  end.

(** [x ** 2] on a float [x]: zero, one and the non-finite values are
    answered by Python itself; otherwise the library's [pow] is called on
    the absolute value of [x] and 2.0, and a result that leaves the range
    is an [OverflowError]. *)
Definition float_pow_two (x : double) : result double :=
  match x with
  | S754_nan => Ok S754_nan
  | S754_infinity _ => Ok (S754_infinity false)
  | S754_zero _ => Ok (S754_zero false)
  | S754_finite _ m e =>
      let a := S754_finite false m e in
      if SFeqb a one then Ok one
      else
        match libm_pow a two with
        | S754_infinity _ => Raise OverflowError
        | r => Ok r
        end
  end.

(** [get_size(n, p)]:
    [m = -(n * math.log(p))/(math.log(2)**2); return int(m)] *)
Definition get_size (n : Z) (p : double) : result Z :=
  lp ← math_log p;
  x ← of_int n;
  l2 ← math_log two;
  sq ← float_pow_two l2;
  m ← float_truediv (opp (mul x lp)) sq;
  int_of_float m.

(** [get_hash_count(m, n)]:
    [k = (m/n) * math.log(2); return int(k)] *)
Definition get_hash_count (m n : Z) : result Z :=
  q ← int_truediv m n;
  l2 ← math_log two;
  int_of_float (mul q l2).

End Libm.

(** The values of the C library at the arguments of the examples, as
    glibc returns them (they are the correctly rounded ones):
    [log(2.0)], [log(0.5)], [log(0.05)] and [pow(log(2.0), 2.0)]. *)
Definition log_2 : double := S754_finite false 0x162e42fefa39ef (-53).
Definition log_half : double := S754_finite true 0x162e42fefa39ef (-53).
Definition log_005 : double := S754_finite true 0x17f7427b73e391 (-51).
Definition log_2_squared : double := S754_finite false 0x1ebfbdff82c58e (-54).

(** A library that has these values, and NaN elsewhere; it instantiates
    the parameters in the examples. *)
Definition sample_log (x : double) : double :=
  if SFeqb x two then log_2
  else if SFeqb x half then log_half
  else if SFeqb x p005 then log_005
  else S754_nan.

Definition sample_pow (x y : double) : double :=
  if SFeqb x log_2 && SFeqb y two then log_2_squared else S754_nan.

End Double.

(** ** The filter object *)

(** The instance attributes set by [__init__]. *)
Record BloomFilter : Type := mkBloomFilter {
  fp_prob : R;
  size : Z;
  hash_count : Z;
  bit_array : list bool
}.

(** An access to [self.bit_array], with the index as the code passes it. *)
Inductive event : Set :=
  | Read (i : Z)
  | Write (i : Z).

(** A method body: it runs on the object, may mutate it, may raise, and
    leaves a log of its accesses to the bit array.  The object survives an
    exception, as in Python. *)
Definition M (A : Type) : Type :=
  BloomFilter -> result A * BloomFilter * list event.

#[global] Instance M_ret : MRet M := fun A a self => (Ok a, self, []).

#[global] Instance M_bind : MBind M := fun A B f m self =>
  match m self with
  | (Ok a, self1, t1) =>
      match f a self1 with
      | (r, self2, t2) => (r, self2, t1 ++ t2)
      end
  | (Raise e, self1, t1) => (Raise e, self1, t1)
  end.

Definition attr {A} (f : BloomFilter -> A) : M A :=
  fun self => (Ok (f self), self, []).

Definition lift {A} (r : result A) : M A :=
  fun self => (r, self, []).

(** Sequence index normalisation: a negative index counts from the end;
    anything still outside [0, len) is an [IndexError]. *)
Definition normalize_index (len i : Z) : result nat :=
  let j := if i <? 0 then i + len else i in
  if (0 <=? j) && (j <? len) then Ok (Z.to_nat j) else Raise IndexError.

(** [self.bit_array[i]] *)
Definition bits_getitem (i : Z) : M bool := fun self =>
  match normalize_index (Z.of_nat (length (bit_array self))) i with
  | Ok j => (Ok (default false (bit_array self !! j)), self, [Read i])
  | Raise e => (Raise e, self, [Read i])
  end.

(** [self.bit_array[i] = v] *)
Definition bits_setitem (i : Z) (v : bool) : M unit := fun self =>
  match normalize_index (Z.of_nat (length (bit_array self))) i with
  | Ok j =>
      (Ok tt,
       mkBloomFilter (fp_prob self) (size self) (hash_count self)
                     (<[j := v]> (bit_array self)),
       [Write i])
  | Raise e => (Raise e, self, [Write i])
  end.

(** ** Sizing *)

(** [get_size(n, p)]:
    [m = -(n * math.log(p))/(math.log(2)**2); return int(m)] *)
Definition get_size (n : Z) (p : R) : result Z :=
  lp ← Py.math_log p;
  l2 ← Py.math_log 2;
  m ← Py.float_div (- (IZR n * lp)) (l2 ^ 2);
  mret (Py.int_of_float m).

(** [get_hash_count(m, n)]:
    [k = (m/n) * math.log(2); return int(k)] *)
Definition get_hash_count (m n : Z) : result Z :=
  q ← Py.int_truediv m n;
  l2 ← Py.math_log 2;
  mret (Py.int_of_float (q * l2)).

(** A caller's operation on the object. *)
Inductive op : Set :=
  | CallAdd (item : string)
  | CallCheck (item : string).

Section Filter.

(** [mmh3.hash(item, seed)]: any integer may come back, negative ones
    included (the library returns a signed 32-bit value). *)
Variable mmh3_hash : string -> Z -> Z.

(** The contents of a [bitarray(n)] before it is initialised. *)
Variable uninitialised : nat -> bool.

(** [bitarray(n)]: [n] bits of unspecified content; a negative length is a
    [ValueError]. *)
Definition bitarray (n : Z) : result (list bool) :=
  if n <? 0 then Raise ValueError
  else Ok (List.map uninitialised (seq 0 (Z.to_nat n))).

(** [a.setall(v)] *)
Definition setall (v : bool) (a : list bool) : list bool :=
  List.map (fun _ => v) a.

(** [BloomFilter(items_count, fp_prob)], that is [__init__]. *)
Definition init (items_count : Z) (fp : R) : result BloomFilter :=
  sz ← get_size items_count fp;
  hc ← get_hash_count sz items_count;
  a ← bitarray sz;
  mret (mkBloomFilter fp sz hc (setall false a)).

(** The loop of [add]: one round per seed [i], the digests collected in
    the local list [digests]. *)
Fixpoint add_loop (item : string) (rounds : list Z) (digests : list Z)
  : M (list Z) :=
  match rounds with
  | [] => mret digests
  | i :: rounds' =>
      sz ← attr size;
      digest ← lift (Py.int_mod (mmh3_hash item i) sz);
      _ ← bits_setitem digest true;
      add_loop item rounds' (digests ++ [digest])
  end.

(** [add] with its local [digests] made visible. *)
Definition add_digests (item : string) : M (list Z) :=
  k ← attr hash_count;
  add_loop item (Py.range k) [].

(** [self.add(item)] *)
Definition add (item : string) : M unit :=
  _ ← add_digests item; mret tt.

(** The loop of [check]: it returns [False] at the first round whose bit
    is not set. *)
Fixpoint check_loop (item : string) (rounds : list Z) : M bool :=
  match rounds with
  | [] => mret true
  | i :: rounds' =>
      sz ← attr size;
      digest ← lift (Py.int_mod (mmh3_hash item i) sz);
      b ← bits_getitem digest;
      if negb b then mret false else check_loop item rounds'
  end.

(** [self.check(item)] *)
Definition check (item : string) : M bool :=
  k ← attr hash_count;
  check_loop item (Py.range k).

(** *** Sequences of calls *)

(** One call; a [check] yields its answer, an [add] yields [None]. *)
Definition exec (o : op) : M (option bool) :=
  match o with
  | CallAdd item => _ ← add item; mret None
  | CallCheck item => b ← check item; mret (Some b)
  end.

(** A sequence of calls on the same object, with the answers in order. *)
Fixpoint run (ops : list op) : M (list (option bool)) :=
  match ops with
  | [] => mret []
  | o :: ops' => r ← exec o; rs ← run ops'; mret (r :: rs)
  end.

(** *** The indexing routine as the specification names it *)

(** [hash_indices(item, k, m)]: for each round [i] in [0..k), the hash of
    [item] seeded by [i], reduced modulo [m]. *)
Definition hash_indices (item : string) (k m : Z) : list Z :=
  List.map (fun i => mmh3_hash item i mod m) (Py.range k).

End Filter.

(** ** Observations on a method call *)

Definition outcome {A} (m : M A) (self : BloomFilter) : result A := (m self).1.1.
Definition final {A} (m : M A) (self : BloomFilter) : BloomFilter := (m self).1.2.
Definition trace {A} (m : M A) (self : BloomFilter) : list event := (m self).2.

Definition index_of (e : event) : Z :=
  match e with
  | Read i => i
  | Write i => i
  end.

Definition is_write (e : event) : bool :=
  match e with
  | Read _ => false
  | Write _ => true
  end.

(** The bit at index [i] of an object (false outside the array). *)
Definition bit (self : BloomFilter) (i : Z) : bool :=
  (0 <=? i) && default false (bit_array self !! Z.to_nat i).

(** The prefix of a digest sequence that a short-circuiting scan reads:
    it stops after the first digest whose bit is not set. *)
Fixpoint probed (self : BloomFilter) (digests : list Z) : list Z :=
  match digests with
  | [] => []
  | d :: digests' =>
      d :: (if bit self d then probed self digests' else [])
  end.

(** The shape every constructed object has: the bit array is [size] bits
    long, and hashing rounds only exist on a non-empty array. *)
Definition wf (self : BloomFilter) : Prop :=
  Z.of_nat (length (bit_array self)) = size self
  /\ (0 < hash_count self -> 0 < size self).

(** The object with its bit array replaced. *)
Definition with_bits (self : BloomFilter) (a : list bool) : BloomFilter :=
  mkBloomFilter (fp_prob self) (size self) (hash_count self) a.

(** The bit array after setting the bits at [digests], in order. *)
Definition set_bits (digests : list Z) (a : list bool) : list bool :=
  foldl (fun a d => <[Z.to_nat d := true]> a) a digests.

(** What a method may change: nothing but bits going from false to true. *)
Definition frame (self self' : BloomFilter) : Prop :=
  fp_prob self' = fp_prob self
  /\ size self' = size self
  /\ hash_count self' = hash_count self
  /\ length (bit_array self') = length (bit_array self)
  /\ (forall i, bit_array self !! i = Some true ->
                bit_array self' !! i = Some true).

(** [z] is the real number [x] truncated toward zero. *)
Definition truncated_toward_zero (x : R) (z : Z) : Prop :=
  ((0 <= x)%R -> (IZR z <= x < IZR z + 1)%R)
  /\ ((x <= 0)%R -> (IZR z - 1 < x <= IZR z)%R).

(** The size and the number of rounds that [__init__] derives when
    it succeeds, in closed form. *)
Definition derived_size (n : Z) (p : R) : Z :=
  Py.int_of_float (- (IZR n * ln p) / ln 2 ^ 2).

Definition derived_hash_count (n : Z) (p : R) : Z :=
  Py.int_of_float (IZR (derived_size n p) / IZR n * ln 2).

(** ** Certified bounds on logarithms

    Fixed-point arithmetic with denominator [D]: a value [s/D] is squared
    [k] times with the rounding directed up (or down), which bounds
    [(s/D)^(2^k)] from above (or below) without large numbers. *)

Module LnBounds.

Definition D : Z := 2 ^ 64.

Definition sq_up (a : Z) : Z := (a * a + D - 1) / D.
Definition sq_down (a : Z) : Z := (a * a) / D.

Fixpoint iter_sq (sq : Z -> Z) (k : nat) (a : Z) : Z :=
  match k with
  | O => a
  | S k' => iter_sq sq k' (sq a)
  end.

Definition fx (a : Z) : R := (IZR a / IZR D)%R.

(** Certificate for [p/q <= ln X]. *)
Definition lower_ok (X : Z) (k : nat) (s p q : Z) : bool :=
  (0 <? q) && (D <? s) && (iter_sq sq_up k s <=? X * D)
  && (p * s <=? q * 2 ^ Z.of_nat k * (s - D)).

(** Certificate for [ln X <= p/q]. *)
Definition upper_ok (X : Z) (k : nat) (s p q : Z) : bool :=
  (0 <? q) && (0 <? s) && (0 <? X) && (X * D <=? iter_sq sq_down k s)
  && (2 ^ Z.of_nat k * (s - D) * q <=? p * D).

End LnBounds.

(** The same certificates with the fixed-point denominator [D] as a
    parameter, for bounds of higher precision. *)

Module LnWide.

Definition sq_up (D a : Z) : Z := (a * a + D - 1) / D.
Definition sq_down (D a : Z) : Z := (a * a) / D.
Definition fx (D a : Z) : R := (IZR a / IZR D)%R.

Definition lower_checks (D X : Z) (k : nat) (s p q : Z) : bool :=
  (0 <? q) && (D <? s) && (LnBounds.iter_sq (sq_up D) k s <=? X * D)
  && (p * s <=? q * 2 ^ Z.of_nat k * (s - D)).

Definition upper_checks (D X : Z) (k : nat) (s p q : Z) : bool :=
  (0 <? q) && (0 <? s) && (0 <? X)
  && (X * D <=? LnBounds.iter_sq (sq_down D) k s)
  && (2 ^ Z.of_nat k * (s - D) * q <=? p * D).

(** Certificates for [p/q <= ln X] and for [ln X <= p/q]. *)
Definition lower_ok (D X : Z) (k : nat) (s p q : Z) : bool :=
  (0 <? D) && lower_checks D X k s p q.

Definition upper_ok (D X : Z) (k : nat) (s p q : Z) : bool :=
  (0 <? D) && upper_checks D X k s p q.

End LnWide.

(** ** A hash for the examples

    MurmurHash3 (x86, 32 bit), with the result read as a signed 32-bit
    integer, which is what [mmh3.hash(item, seed)] returns.  It instantiates
    the hash parameter in the examples; no theorem depends on it. *)

Module Murmur3.

Definition u32 (x : Z) : Z := x mod 2 ^ 32.

Definition rotl32 (x r : Z) : Z :=
  u32 (Z.lor (Z.shiftl x r) (Z.shiftr x (32 - r))).

Definition c1 : Z := 0xcc9e2d51.
Definition c2 : Z := 0x1b873593.

Definition mix_k (k : Z) : Z := u32 (rotl32 (u32 (k * c1)) 15 * c2).

Definition mix_h (h k : Z) : Z :=
  u32 (rotl32 (Z.lxor h (mix_k k)) 13 * 5 + 0xe6546b64).

Fixpoint body (data : list Z) (h : Z) : Z :=
  match data with
  | b0 :: b1 :: b2 :: b3 :: rest =>
      body rest
        (mix_h h (Z.lor b0 (Z.lor (Z.shiftl b1 8)
                    (Z.lor (Z.shiftl b2 16) (Z.shiftl b3 24)))))
  | [b0; b1; b2] =>
      Z.lxor h (mix_k (Z.lor b0 (Z.lor (Z.shiftl b1 8) (Z.shiftl b2 16))))
  | [b0; b1] => Z.lxor h (mix_k (Z.lor b0 (Z.shiftl b1 8)))
  | [b0] => Z.lxor h (mix_k b0)
  | [] => h
  end.

Definition fmix32 (h : Z) : Z :=
  let h := Z.lxor h (Z.shiftr h 16) in
  let h := u32 (h * 0x85ebca6b) in
  let h := Z.lxor h (Z.shiftr h 13) in
  let h := u32 (h * 0xc2b2ae35) in
  Z.lxor h (Z.shiftr h 16).

Definition hash32 (data : list Z) (seed : Z) : Z :=
  fmix32 (Z.lxor (body data (u32 seed)) (Z.of_nat (length data))).

Definition signed32 (x : Z) : Z := if x <? 2 ^ 31 then x else x - 2 ^ 32.

Definition bytes_of (s : string) : list Z :=
  List.map (fun c => Z.of_nat (Ascii.nat_of_ascii c)) (list_ascii_of_string s).

Definition mmh3_hash (item : string) (seed : Z) : Z :=
  signed32 (hash32 (bytes_of item) seed).

End Murmur3.

(** ** Objects used in the examples *)

Local Open Scope R_scope.

(** [BloomFilter(20, 0.05)] *)
Definition filter_20_005 : BloomFilter :=
  mkBloomFilter (5 / 100) 124 4 (replicate 124 false).

(** [BloomFilter(1, 0.5)] *)
Definition filter_1_05 : BloomFilter :=
  mkBloomFilter (1 / 2) 1 0 [false].

(** [BloomFilter(1, 0.75)] *)
Definition filter_1_075 : BloomFilter :=
  mkBloomFilter (3 / 4) 0 0 [].


Local Close Scope R_scope.

(** A fresh bit array that holds ones before it is initialised. *)
Definition ones : nat -> bool := fun _ => true.

(** ** Notions for sequences of calls *)

(** The items that a sequence of calls adds, in order. *)
Definition added (ops : list op) : list string :=
  flat_map (fun o => match o with
                     | CallAdd item => [item]
                     | CallCheck _ => []
                     end) ops.

(** The number of set bits of a bit array. *)
Fixpoint popcount (a : list bool) : nat :=
  match a with
  | [] => 0
  | b :: a' => (if b then 1 else 0) + popcount a'
  end.

Local Open Scope R_scope.

(** [BloomFilter(-1, 2.0)] *)
Definition filter_m1_2 : BloomFilter :=
  mkBloomFilter 2 1 0 [false].

Local Close Scope R_scope.

(** * Proofs *)

(** ** Logarithm bounds *)

Module LnBoundsFacts.
Import LnBounds.

Lemma D_pos : (0 < IZR D)%R.
Proof. apply IZR_lt. reflexivity. Qed.

Lemma sq_up_ge a : a * a <= sq_up a * D.
Proof.
  unfold sq_up.
  assert (HD : 0 < D) by reflexivity.
  pose proof (Z.div_mod (a * a + D - 1) D ltac:(lia)) as E.
  pose proof (Z.mod_pos_bound (a * a + D - 1) D HD) as B.
  lia.
Qed.

Lemma sq_down_le a : sq_down a * D <= a * a.
Proof.
  unfold sq_down.
  assert (HD : 0 < D) by reflexivity.
  pose proof (Z.div_mod (a * a) D ltac:(lia)) as E.
  pose proof (Z.mod_pos_bound (a * a) D HD) as B.
  lia.
Qed.

Lemma sq_up_nonneg a : 0 <= sq_up a.
Proof.
  unfold sq_up. apply Z.div_pos; [|reflexivity].
  assert (0 < D) by reflexivity. nia.
Qed.

Lemma sq_down_nonneg a : 0 <= sq_down a.
Proof.
  unfold sq_down. apply Z.div_pos; [nia | reflexivity].
Qed.

Lemma fx_sq_up a : (fx a ^ 2 <= fx (sq_up a))%R.
Proof.
  unfold fx. pose proof D_pos as HD.
  pose proof (IZR_le _ _ (sq_up_ge a)) as H.
  rewrite !mult_IZR in H.
  apply Rmult_le_reg_r with (IZR D * IZR D)%R; [nra|].
  field_simplify; [|lra|lra]. nra.
Qed.

Lemma fx_sq_down a : (fx (sq_down a) <= fx a ^ 2)%R.
Proof.
  unfold fx. pose proof D_pos as HD.
  pose proof (IZR_le _ _ (sq_down_le a)) as H.
  rewrite !mult_IZR in H.
  apply Rmult_le_reg_r with (IZR D * IZR D)%R; [nra|].
  field_simplify; [|lra|lra]. nra.
Qed.

Lemma fx_nonneg a : 0 <= a -> (0 <= fx a)%R.
Proof.
  intros H. unfold fx. apply IZR_le in H. pose proof D_pos.
  apply Rmult_le_pos; [lra|]. apply Rlt_le, Rinv_0_lt_compat. assumption.
Qed.

Lemma pow_two_pow_S x k : (x ^ (2 ^ S k) = (x ^ 2) ^ (2 ^ k))%R.
Proof. rewrite <- pow_mult. f_equal; simpl; lia. Qed.

Lemma iter_up_bound k : forall a, 0 <= a ->
  (fx a ^ (2 ^ k) <= fx (iter_sq sq_up k a))%R.
Proof.
  induction k as [|k IH]; intros a Ha.
  - simpl. lra.
  - rewrite pow_two_pow_S. simpl iter_sq.
    apply Rle_trans with (fx (sq_up a) ^ (2 ^ k))%R.
    + apply pow_incr. split; [apply pow2_ge_0 | apply fx_sq_up].
    + apply IH, sq_up_nonneg.
Qed.

Lemma iter_down_bound k : forall a, 0 <= a ->
  (fx (iter_sq sq_down k a) <= fx a ^ (2 ^ k))%R.
Proof.
  induction k as [|k IH]; intros a Ha.
  - simpl. lra.
  - rewrite pow_two_pow_S. simpl iter_sq.
    apply Rle_trans with (fx (sq_down a) ^ (2 ^ k))%R.
    + apply IH, sq_down_nonneg.
    + apply pow_incr. split; [apply fx_nonneg, sq_down_nonneg | apply fx_sq_down].
Qed.

Lemma ln_le_mono x y : (0 < x)%R -> (x <= y)%R -> (ln x <= ln y)%R.
Proof.
  intros Hx [H| ->]; [left; now apply ln_increasing | lra].
Qed.

Lemma ln_upper x : (0 < x)%R -> (ln x <= x - 1)%R.
Proof.
  intros Hx. pose proof (exp_ineq1_le (ln x)) as H.
  rewrite exp_ln in H by assumption. lra.
Qed.

Lemma ln_lower x : (0 < x)%R -> (1 - / x <= ln x)%R.
Proof.
  intros Hx. pose proof (ln_upper (/ x) (Rinv_0_lt_compat _ Hx)) as H.
  rewrite ln_Rinv in H by assumption. lra.
Qed.

Lemma INR_two_pow k : INR (2 ^ k) = IZR (2 ^ Z.of_nat k).
Proof.
  rewrite INR_IZR_INZ. f_equal. rewrite Nat2Z.inj_pow. reflexivity.
Qed.

Lemma ln_lower_bound X k s p q :
  lower_ok X k s p q = true -> (IZR p / IZR q <= ln (IZR X))%R.
Proof.
  unfold lower_ok. rewrite !Bool.andb_true_iff.
  rewrite !Z.ltb_lt, !Z.leb_le. intros [[[Hq Hs] Hit] Hpq].
  pose proof D_pos as HD. assert (HD0 : 0 < D) by reflexivity.
  assert (HDs : (IZR D < IZR s)%R) by now apply IZR_lt.
  assert (Hs0 : (0 < IZR s)%R) by lra.
  assert (Hr : (0 < fx s)%R).
  { unfold fx. apply Rdiv_lt_0_compat; lra. }
  assert (Hpow : (fx s ^ (2 ^ k) <= IZR X)%R).
  { eapply Rle_trans; [apply iter_up_bound; lia|].
    unfold fx. apply IZR_le in Hit. rewrite mult_IZR in Hit.
    apply Rmult_le_reg_r with (IZR D); [lra|].
    unfold Rdiv. rewrite Rmult_assoc, Rinv_l by lra. lra. }
  assert (Hln : (INR (2 ^ k) * ln (fx s) <= ln (IZR X))%R).
  { rewrite <- ln_pow by assumption.
    apply ln_le_mono; [apply pow_lt|]; assumption. }
  assert (Hlow : ((IZR s - IZR D) / IZR s <= ln (fx s))%R).
  { eapply Rle_trans; [|apply ln_lower; assumption].
    unfold fx. right. field. lra. }
  apply IZR_lt in Hq. apply IZR_le in Hpq.
  rewrite !mult_IZR, minus_IZR in Hpq.
  rewrite INR_two_pow in Hln.
  set (T := IZR (2 ^ Z.of_nat k)) in *.
  assert (HT : (0 <= T)%R).
  { unfold T. apply IZR_le. apply Z.pow_nonneg. lia. }
  apply Rle_trans with (T * ((IZR s - IZR D) / IZR s))%R.
  - apply Rmult_le_reg_r with (IZR q * IZR s)%R; [nra|].
    field_simplify; [|lra|lra]. nra.
  - eapply Rle_trans; [|apply Hln]. apply Rmult_le_compat_l; assumption.
Qed.

Lemma ln_upper_bound X k s p q :
  upper_ok X k s p q = true -> (ln (IZR X) <= IZR p / IZR q)%R.
Proof.
  unfold upper_ok. rewrite !Bool.andb_true_iff.
  rewrite !Z.ltb_lt, !Z.leb_le. intros [[[[Hq Hs] HX] Hit] Hpq].
  pose proof D_pos as HD.
  apply IZR_lt in Hs, HX.
  assert (Hr : (0 < fx s)%R).
  { unfold fx. apply Rdiv_lt_0_compat; lra. }
  assert (Hpow : (IZR X <= fx s ^ (2 ^ k))%R).
  { eapply Rle_trans; [|apply iter_down_bound; apply le_IZR; lra].
    unfold fx. apply IZR_le in Hit. rewrite mult_IZR in Hit.
    apply Rmult_le_reg_r with (IZR D); [lra|].
    unfold Rdiv. rewrite Rmult_assoc, Rinv_l by lra. lra. }
  assert (Hln : (ln (IZR X) <= INR (2 ^ k) * ln (fx s))%R).
  { rewrite <- ln_pow by assumption.
    apply ln_le_mono; assumption. }
  assert (Hup : (ln (fx s) <= (IZR s - IZR D) / IZR D)%R).
  { eapply Rle_trans; [apply ln_upper; assumption|].
    unfold fx. right. field. lra. }
  apply IZR_lt in Hq. apply IZR_le in Hpq.
  rewrite !mult_IZR, minus_IZR in Hpq.
  rewrite INR_two_pow in Hln.
  set (T := IZR (2 ^ Z.of_nat k)) in *.
  assert (HT : (0 <= T)%R).
  { unfold T. apply IZR_le. apply Z.pow_nonneg. lia. }
  apply Rle_trans with (T * ((IZR s - IZR D) / IZR D))%R.
  - eapply Rle_trans; [apply Hln|]. apply Rmult_le_compat_l; assumption.
  - apply Rmult_le_reg_r with (IZR q * IZR D)%R; [nra|].
    field_simplify; [|lra|lra]. nra.
Qed.

(** [0.693146 <= ln 2 <= 0.693148] *)
Lemma ln2_bounds : (693146 / 1000000 <= ln 2 <= 693148 / 1000000)%R.
Proof.
  split.
  - apply (ln_lower_bound 2 20 18446756267687738521). vm_compute. reflexivity.
  - apply (ln_upper_bound 2 20 18446756267687738523). vm_compute. reflexivity.
Qed.

(** [2.995727 <= ln 20 <= 2.995737] *)
Lemma ln20_bounds : (2995727 / 1000000 <= ln 20 <= 2995737 / 1000000)%R.
Proof.
  split.
  - apply (ln_lower_bound 20 20 18446796775264330133). vm_compute. reflexivity.
  - apply (ln_upper_bound 20 20 18446796775264330135). vm_compute. reflexivity.
Qed.

End LnBoundsFacts.

(** ** Sizing *)

Section Sizing.
Import LnBoundsFacts.
Local Open Scope R_scope.

Lemma ln2_pos : 0 < ln 2.
Proof. pose proof ln2_bounds. lra. Qed.

Lemma ln2_sqr_pos : 0 < ln 2 ^ 2.
Proof. pose proof ln2_pos. nra. Qed.

Lemma math_log_pos x : 0 < x -> Py.math_log x = Ok (ln x).
Proof. intros H. unfold Py.math_log. destruct (Rlt_dec 0 x); [reflexivity | contradiction]. Qed.

Lemma math_log_nonpos x : x <= 0 -> Py.math_log x = Raise ValueError.
Proof. intros H. unfold Py.math_log. destruct (Rlt_dec 0 x); [lra | reflexivity]. Qed.

Lemma float_div_nonzero x y : y <> 0 -> Py.float_div x y = Ok (x / y).
Proof. intros H. unfold Py.float_div. destruct (Req_dec_T y 0); [contradiction | reflexivity]. Qed.

Lemma int_of_float_spec x : truncated_toward_zero x (Py.int_of_float x).
Proof.
  unfold truncated_toward_zero, Py.int_of_float.
  destruct (Rle_dec 0 x) as [H|H]; split; intros Hx.
  - apply Zfloor_bound.
  - assert (x = 0) as -> by lra.
    change 0 with (IZR 0). rewrite ZfloorZ. simpl. lra.
  - contradiction.
  - apply Zceil_bound.
Qed.

Lemma int_of_float_eq x z :
  0 <= x -> IZR z <= x < IZR z + 1 -> Py.int_of_float x = z.
Proof.
  intros Hx Hz. unfold Py.int_of_float.
  destruct (Rle_dec 0 x); [now apply Zfloor_eq | contradiction].
Qed.

Lemma int_of_float_nonneg x : 0 <= x -> (0 <= Py.int_of_float x)%Z.
Proof.
  intros Hx. unfold Py.int_of_float.
  destruct (Rle_dec 0 x); [|contradiction].
  apply Zfloor_lub. simpl. assumption.
Qed.

Lemma get_size_eq n p :
  0 < p ->
  get_size n p = Ok (Py.int_of_float (- (IZR n * ln p) / ln 2 ^ 2)).
Proof.
  intros Hp. unfold get_size.
  rewrite (math_log_pos p Hp), (math_log_pos 2) by lra. cbn.
  rewrite float_div_nonzero; [reflexivity|].
  pose proof ln2_sqr_pos. lra.
Qed.

Lemma get_size_error n p : p <= 0 -> get_size n p = Raise ValueError.
Proof.
  intros Hp. unfold get_size. rewrite (math_log_nonpos p Hp). reflexivity.
Qed.

Lemma get_hash_count_eq m n :
  n <> 0%Z ->
  get_hash_count m n = Ok (Py.int_of_float (IZR m / IZR n * ln 2)).
Proof.
  intros Hn. unfold get_hash_count, Py.int_truediv.
  destruct (Z.eq_dec n 0%Z); [contradiction|]. cbn.
  rewrite (math_log_pos 2) by lra. reflexivity.
Qed.

Lemma get_hash_count_error m : get_hash_count m 0 = Raise ZeroDivisionError.
Proof. reflexivity. Qed.

Lemma ln_005 : ln (5 / 100) = - ln 20.
Proof.
  replace (5 / 100) with (/ 20) by lra. apply ln_Rinv. lra.
Qed.

Lemma get_size_20_005 : get_size 20 (5 / 100) = Ok 124%Z.
Proof.
  rewrite get_size_eq by lra. f_equal.
  rewrite ln_005.
  pose proof ln2_bounds as [L1 L2]. pose proof ln20_bounds as [T1 T2].
  pose proof ln2_sqr_pos as Hq.
  assert (Hlo : 124 * ln 2 ^ 2 <= 20 * ln 20) by nra.
  assert (Hhi : 20 * ln 20 < 125 * ln 2 ^ 2) by nra.
  replace (- (20 * - ln 20) / ln 2 ^ 2) with (20 * ln 20 / ln 2 ^ 2)
    by (field; lra).
  apply int_of_float_eq.
  - apply Rmult_le_reg_r with (ln 2 ^ 2); [assumption|].
    unfold Rdiv. rewrite Rmult_assoc, Rinv_l by lra. nra.
  - split.
    + apply Rmult_le_reg_r with (ln 2 ^ 2); [assumption|].
      unfold Rdiv. rewrite Rmult_assoc, Rinv_l by lra. lra.
    + apply Rmult_lt_reg_r with (ln 2 ^ 2); [assumption|].
      unfold Rdiv. rewrite Rmult_assoc, Rinv_l by lra. lra.
Qed.

Lemma get_hash_count_124_20 : get_hash_count 124 20 = Ok 4%Z.
Proof.
  rewrite get_hash_count_eq by discriminate. f_equal.
  pose proof ln2_bounds as [L1 L2].
  apply int_of_float_eq; [|split]; lra.
Qed.

End Sizing.

(** ** The monad of method bodies *)

Lemma M_bind_ok {A B} (m : M A) (f : A -> M B) self a self1 t1 :
  m self = (Ok a, self1, t1) ->
  (m ≫= f) self = ((f a self1).1.1, (f a self1).1.2, t1 ++ (f a self1).2).
Proof.
  intros E. unfold mbind, M_bind. rewrite E.
  destruct (f a self1) as [[r s2] t2]. reflexivity.
Qed.

Lemma M_bind_raise {A B} (m : M A) (f : A -> M B) self e self1 t1 :
  m self = (Raise e, self1, t1) ->
  (m ≫= f) self = (Raise e, self1, t1).
Proof. intros E. unfold mbind, M_bind. rewrite E. reflexivity. Qed.

Lemma attr_bind {A B} (g : BloomFilter -> A) (f : A -> M B) self :
  (attr g ≫= f) self = f (g self) self.
Proof.
  unfold mbind, M_bind, attr. destruct (f (g self) self) as [[r s] t].
  reflexivity.
Qed.

Lemma lift_ok_bind {A B} (a : A) (f : A -> M B) self :
  (lift (Ok a) ≫= f) self = f a self.
Proof.
  unfold mbind, M_bind, lift. destruct (f a self) as [[r s] t]. reflexivity.
Qed.

Lemma lift_raise_bind {A B} e (f : A -> M B) self :
  (lift (Raise e) ≫= f) self = (Raise e, self, []).
Proof. reflexivity. Qed.

(** ** Index arithmetic *)

Lemma int_mod_pos a b : 0 < b -> Py.int_mod a b = Ok (a mod b).
Proof.
  intros H. unfold Py.int_mod. destruct (Z.eq_dec b 0); [lia | reflexivity].
Qed.

Lemma normalize_index_in_range len i :
  0 <= i < len -> normalize_index len i = Ok (Z.to_nat i).
Proof.
  intros H. unfold normalize_index.
  destruct (Z.ltb_spec i 0); [lia|].
  destruct (Z.leb_spec 0 i); [|lia].
  destruct (Z.ltb_spec i len); [reflexivity | lia].
Qed.

Lemma normalize_index_lt len i j :
  normalize_index len i = Ok j -> Z.of_nat j < len.
Proof.
  unfold normalize_index.
  destruct (Z.ltb_spec i 0);
    (match goal with |- context [(0 <=? ?x) && (?x <? len)] =>
       destruct (Z.leb_spec 0 x); destruct (Z.ltb_spec x len) end);
    simpl; intros E; inversion E; lia.
Qed.

Lemma range_nonpos k : k <= 0 -> Py.range k = [].
Proof.
  intros H. unfold Py.range. replace (Z.to_nat k) with 0%nat by lia.
  reflexivity.
Qed.

Lemma in_range k i : i ∈ Py.range k <-> 0 <= i < k.
Proof.
  unfold Py.range. rewrite list_elem_of_In, in_map_iff. split.
  - intros (j & <- & Hj). apply in_seq in Hj. lia.
  - intros H. exists (Z.to_nat i). split; [lia|]. apply in_seq. lia.
Qed.

(** ** Bit arrays *)

Lemma with_bits_id self : with_bits self (bit_array self) = self.
Proof. destruct self. reflexivity. Qed.

Lemma length_set_bits ds : forall a, length (set_bits ds a) = length a.
Proof.
  induction ds as [|d ds IH]; intros a; [reflexivity|].
  unfold set_bits in *. simpl. rewrite IH. apply length_insert.
Qed.

Lemma set_bits_lookup ds : forall a j,
  set_bits ds a !! j
  = (fun b => b || existsb (fun d => Nat.eqb (Z.to_nat d) j) ds) <$> a !! j.
Proof.
  induction ds as [|d ds IH]; intros a j.
  - simpl. destruct (a !! j) as [b|]; [|reflexivity].
    simpl. now rewrite orb_false_r.
  - change (set_bits (d :: ds) a) with (set_bits ds (<[Z.to_nat d := true]> a)).
    rewrite IH. simpl existsb.
    destruct (Nat.eqb_spec (Z.to_nat d) j) as [->|Hne].
    + destruct (a !! j) as [b|] eqn:E.
      * rewrite list_lookup_insert_eq by (eapply lookup_lt_Some; eassumption).
        simpl. now rewrite orb_true_r.
      * rewrite list_insert_ge by (now apply lookup_ge_None). now rewrite E.
    + rewrite list_lookup_insert_ne by assumption. reflexivity.
Qed.

Lemma set_bits_idemp ds a : set_bits ds (set_bits ds a) = set_bits ds a.
Proof.
  apply list_eq. intros j. rewrite !set_bits_lookup.
  destruct (a !! j) as [b|]; [|reflexivity]. simpl.
  f_equal. now destruct b, (existsb _ ds).
Qed.

Lemma set_bits_mono ds a j :
  a !! j = Some true -> set_bits ds a !! j = Some true.
Proof. intros E. rewrite set_bits_lookup, E. reflexivity. Qed.

Lemma set_bits_hit ds a d :
  d ∈ ds -> (Z.to_nat d < length a)%nat ->
  set_bits ds a !! Z.to_nat d = Some true.
Proof.
  intros Hd Hlen. rewrite set_bits_lookup.
  destruct (lookup_lt_is_Some_2 a _ Hlen) as [b ->]. simpl. f_equal.
  replace (existsb _ ds) with true; [now rewrite orb_true_r|].
  symmetry. apply existsb_exists. exists d. split.
  - now apply list_elem_of_In.
  - apply Nat.eqb_refl.
Qed.

(** ** The frame relation *)

Lemma frame_refl self : frame self self.
Proof. unfold frame. auto. Qed.

Lemma frame_trans s1 s2 s3 : frame s1 s2 -> frame s2 s3 -> frame s1 s3.
Proof.
  unfold frame. intros (A1 & A2 & A3 & A4 & A5) (B1 & B2 & B3 & B4 & B5).
  repeat split; try congruence. auto.
Qed.

Lemma frame_with_bits self a :
  length a = length (bit_array self) ->
  (forall i, bit_array self !! i = Some true -> a !! i = Some true) ->
  frame self (with_bits self a).
Proof. unfold frame. simpl. auto. Qed.

Lemma frame_wf s s' : frame s s' -> wf s -> wf s'.
Proof.
  unfold frame, wf. intros (_ & A2 & A3 & A4 & _) [W1 W2].
  rewrite A2, A3, A4. auto.
Qed.

Lemma frame_bit s s' i : frame s s' -> bit s i = true -> bit s' i = true.
Proof.
  unfold frame, bit. intros (_ & _ & _ & _ & A5).
  destruct (0 <=? i); [simpl | discriminate].
  destruct (bit_array s !! Z.to_nat i) as [[|]|] eqn:E; try discriminate.
  intros _. now rewrite (A5 _ E).
Qed.

(** ** Reading and writing one bit *)

Lemma bits_setitem_cases i self :
  (exists j, bits_setitem i true self
             = (Ok tt, with_bits self (<[j := true]> (bit_array self)), [Write i]))
  \/ bits_setitem i true self = (Raise IndexError, self, [Write i]).
Proof.
  unfold bits_setitem, normalize_index.
  destruct (_ && _); [left; eexists; reflexivity | right; reflexivity].
Qed.

Lemma frame_insert self j :
  frame self (with_bits self (<[j := true]> (bit_array self))).
Proof.
  apply frame_with_bits; [apply length_insert|].
  intros i E. destruct (decide (j = i)) as [->|Hne].
  - rewrite list_lookup_insert_eq; [reflexivity|].
    eapply lookup_lt_Some; eassumption.
  - now rewrite list_lookup_insert_ne.
Qed.

Lemma bits_setitem_frame i self :
  frame self (bits_setitem i true self).1.2.
Proof.
  destruct (bits_setitem_cases i self) as [[j ->] | ->]; simpl.
  - apply frame_insert.
  - apply frame_refl.
Qed.

Lemma bits_setitem_in_range i self :
  0 <= i < Z.of_nat (length (bit_array self)) ->
  bits_setitem i true self
  = (Ok tt, with_bits self (<[Z.to_nat i := true]> (bit_array self)), [Write i]).
Proof.
  intros H. unfold bits_setitem. now rewrite normalize_index_in_range.
Qed.

Lemma bits_getitem_in_range i self :
  0 <= i < Z.of_nat (length (bit_array self)) ->
  bits_getitem i self = (Ok (bit self i), self, [Read i]).
Proof.
  intros H. unfold bits_getitem, bit. rewrite normalize_index_in_range by assumption.
  destruct (Z.leb_spec 0 i); [reflexivity | lia].
Qed.

Lemma bits_getitem_state i self :
  (bits_getitem i self).1.2 = self /\ (bits_getitem i self).2 = [Read i].
Proof. unfold bits_getitem. destruct (normalize_index _ _); auto. Qed.

(** ** The methods *)

Section Methods.

Variable mmh3_hash : string -> Z -> Z.
Variable uninitialised : nat -> bool.

Local Abbreviation add := (add mmh3_hash).
Local Abbreviation add_digests := (add_digests mmh3_hash).
Local Abbreviation add_loop := (add_loop mmh3_hash).
Local Abbreviation check := (check mmh3_hash).
Local Abbreviation check_loop := (check_loop mmh3_hash).
Local Abbreviation hash_indices := (hash_indices mmh3_hash).
Local Abbreviation exec := (exec mmh3_hash).
Local Abbreviation run := (run mmh3_hash).
Local Abbreviation init := (init uninitialised).

(** The digests of [item] over the given rounds, on an array of [m] bits. *)
Local Abbreviation digests_of item rounds m :=
  (List.map (fun i => mmh3_hash item i mod m) rounds).

(** *** [add] on any object *)

Lemma add_loop_frame item rounds : forall acc self,
  frame self (final (add_loop item rounds acc) self).
Proof.
  induction rounds as [|i rounds IH]; intros acc self.
  - apply frame_refl.
  - unfold final. simpl add_loop. rewrite attr_bind.
    destruct (Py.int_mod (mmh3_hash item i) (size self)) as [d|e].
    + rewrite lift_ok_bind.
      destruct (bits_setitem_cases d self) as [[j E] | E].
      * rewrite (M_bind_ok _ _ _ _ _ _ E). simpl.
        eapply frame_trans; [apply frame_insert | apply IH].
      * rewrite (M_bind_raise _ _ _ _ _ _ E). apply frame_refl.
    + rewrite lift_raise_bind. apply frame_refl.
Qed.

Lemma add_frame item self : frame self (final (add item) self).
Proof.
  unfold final, add, add_digests.
  pose proof (add_loop_frame item (Py.range (hash_count self)) [] self) as F.
  unfold final in F.
  unfold mbind at 1, M_bind. rewrite attr_bind.
  destruct (add_loop _ _ _ self) as [[[ds|e] s1] t1]; exact F.
Qed.

(** *** [check] on any object *)

Lemma check_loop_read_only item rounds self :
  final (check_loop item rounds) self = self
  /\ Forall (fun e => is_write e = false) (trace (check_loop item rounds) self).
Proof.
  unfold final, trace.
  induction rounds as [|i rounds IH]; [split; [reflexivity | constructor]|].
  simpl check_loop. rewrite attr_bind.
  destruct (Py.int_mod (mmh3_hash item i) (size self)) as [d|e].
  - rewrite lift_ok_bind.
    destruct (bits_getitem_state d self) as [Es Et].
    destruct (bits_getitem d self) as [[[b|e] s1] t1] eqn:E; simpl in Es, Et;
      subst s1 t1.
    + rewrite (M_bind_ok _ _ _ _ _ _ E).
      destruct b; simpl.
      * destruct IH as [IH1 IH2]. split; [exact IH1|].
        constructor; [reflexivity | exact IH2].
      * split; [reflexivity|]. constructor; [reflexivity | constructor].
    + rewrite (M_bind_raise _ _ _ _ _ _ E). simpl.
      split; [reflexivity|]. constructor; [reflexivity | constructor].
  - rewrite lift_raise_bind. split; [reflexivity | constructor].
Qed.

Lemma check_read_only item self :
  final (check item) self = self
  /\ Forall (fun e => is_write e = false) (trace (check item) self).
Proof.
  unfold final, trace, check. rewrite attr_bind. apply check_loop_read_only.
Qed.

(** *** [add] and [check] on a well-formed object *)

Lemma add_loop_exact item rounds : forall acc self,
  (rounds <> [] ->
   0 < size self /\ Z.of_nat (length (bit_array self)) = size self) ->
  add_loop item rounds acc self
  = (Ok (acc ++ digests_of item rounds (size self)),
     with_bits self (set_bits (digests_of item rounds (size self))
                              (bit_array self)),
     List.map Write (digests_of item rounds (size self))).
Proof.
  induction rounds as [|i rounds IH]; intros acc self H.
  - simpl. rewrite app_nil_r, with_bits_id. reflexivity.
  - destruct H as [Hsz Hlen]; [discriminate|].
    simpl add_loop. rewrite attr_bind, int_mod_pos, lift_ok_bind by assumption.
    set (d := mmh3_hash item i mod size self).
    assert (Hd : 0 <= d < size self) by (apply Z.mod_pos_bound; assumption).
    rewrite (M_bind_ok _ _ _ _ _ _
               (bits_setitem_in_range d self ltac:(lia))).
    rewrite IH.
    + simpl. rewrite <- app_assoc. reflexivity.
    + intros _. simpl. rewrite length_insert. auto.
Qed.

Lemma wf_rounds self :
  wf self ->
  Py.range (hash_count self) <> [] ->
  0 < size self /\ Z.of_nat (length (bit_array self)) = size self.
Proof.
  intros [W1 W2] Hr. split; [|assumption]. apply W2.
  destruct (Z.lt_ge_cases 0 (hash_count self)) as [|Hk]; [assumption|].
  exfalso. apply Hr, range_nonpos. lia.
Qed.

Lemma add_digests_exact item self :
  wf self ->
  add_digests item self
  = (Ok (hash_indices item (hash_count self) (size self)),
     with_bits self (set_bits (hash_indices item (hash_count self) (size self))
                              (bit_array self)),
     List.map Write (hash_indices item (hash_count self) (size self))).
Proof.
  intros W. unfold add_digests. rewrite attr_bind.
  rewrite add_loop_exact by (apply wf_rounds; assumption). reflexivity.
Qed.

Lemma add_exact item self :
  wf self ->
  add item self
  = (Ok tt,
     with_bits self (set_bits (hash_indices item (hash_count self) (size self))
                              (bit_array self)),
     List.map Write (hash_indices item (hash_count self) (size self))).
Proof.
  intros W. unfold add.
  rewrite (M_bind_ok _ _ _ _ _ _ (add_digests_exact item self W)).
  simpl. rewrite app_nil_r. reflexivity.
Qed.

Lemma check_loop_exact item rounds self :
  (rounds <> [] ->
   0 < size self /\ Z.of_nat (length (bit_array self)) = size self) ->
  check_loop item rounds self
  = (Ok (forallb (bit self) (digests_of item rounds (size self))),
     self,
     List.map Read (probed self (digests_of item rounds (size self)))).
Proof.
  intros H. induction rounds as [|i rounds IH]; [reflexivity|].
  destruct H as [Hsz Hlen]; [discriminate|].
  simpl check_loop. rewrite attr_bind, int_mod_pos, lift_ok_bind by assumption.
  set (d := mmh3_hash item i mod size self).
  assert (Hd : 0 <= d < size self) by (apply Z.mod_pos_bound; assumption).
  rewrite (M_bind_ok _ _ _ _ _ _
             (bits_getitem_in_range d self ltac:(lia))).
  simpl List.map. simpl forallb. simpl probed. fold d.
  destruct (bit self d); simpl.
  - rewrite IH by auto. reflexivity.
  - reflexivity.
Qed.

Lemma check_exact item self :
  wf self ->
  check item self
  = (Ok (forallb (bit self) (hash_indices item (hash_count self) (size self))),
     self,
     List.map Read
       (probed self (hash_indices item (hash_count self) (size self)))).
Proof.
  intros W. unfold check. rewrite attr_bind.
  rewrite check_loop_exact by (apply wf_rounds; assumption). reflexivity.
Qed.

End Methods.

(** ** Construction *)

Section Construction.

Variable uninitialised : nat -> bool.

Local Abbreviation init := (init uninitialised).

Lemma int_of_float_zero : Py.int_of_float 0 = 0.
Proof. apply int_of_float_eq; lra. Qed.

Lemma bitarray_ok n : 0 <= n -> bitarray uninitialised n
  = Ok (List.map uninitialised (seq 0 (Z.to_nat n))).
Proof.
  intros H. unfold bitarray. destruct (Z.ltb_spec n 0); [lia | reflexivity].
Qed.

Lemma bitarray_error n : n < 0 -> bitarray uninitialised n = Raise ValueError.
Proof.
  intros H. unfold bitarray. destruct (Z.ltb_spec n 0); [reflexivity | lia].
Qed.

Lemma setall_false a : setall false a = replicate (length a) false.
Proof. induction a as [|b a IH]; simpl; [|rewrite <- IH]; reflexivity. Qed.

Lemma init_ok n p :
  (0 < p)%R -> n <> 0 -> 0 <= derived_size n p ->
  init n p
  = Ok (mkBloomFilter p (derived_size n p) (derived_hash_count n p)
          (replicate (Z.to_nat (derived_size n p)) false)).
Proof.
  intros Hp Hn Hs. unfold init.
  rewrite get_size_eq by assumption. cbn.
  rewrite get_hash_count_eq by assumption. cbn.
  fold (derived_size n p). fold (derived_hash_count n p).
  rewrite bitarray_ok by assumption. cbn.
  rewrite setall_false, length_map, length_seq. reflexivity.
Qed.

Lemma init_inv n p self :
  init n p = Ok self ->
  (0 < p)%R /\ n <> 0 /\ 0 <= derived_size n p
  /\ self = mkBloomFilter p (derived_size n p) (derived_hash_count n p)
              (replicate (Z.to_nat (derived_size n p)) false).
Proof.
  intros E.
  destruct (Rlt_dec 0 p) as [Hp|Hp].
  2:{ unfold init in E. rewrite get_size_error in E by lra. discriminate. }
  destruct (Z.eq_dec n 0) as [->|Hn].
  { unfold init in E. rewrite get_size_eq in E by assumption. cbn in E.
    discriminate. }
  destruct (Z.lt_ge_cases (derived_size n p) 0) as [Hs|Hs].
  { unfold init in E. rewrite get_size_eq in E by assumption. cbn in E.
    rewrite get_hash_count_eq in E by assumption. cbn in E.
    fold (derived_size n p) in E.
    rewrite bitarray_error in E by assumption. discriminate. }
  rewrite init_ok in E by assumption. inversion E. auto.
Qed.

Lemma init_wf n p self : init n p = Ok self -> wf self.
Proof.
  intros E. apply init_inv in E as (Hp & Hn & Hs & ->).
  unfold wf. simpl. rewrite length_replicate. split; [lia|].
  intros Hk.
  destruct (Z.eq_dec (derived_size n p) 0) as [E0|]; [|lia].
  exfalso. unfold derived_hash_count in Hk. rewrite E0 in Hk.
  replace (0 / IZR n * ln 2)%R with 0%R in Hk by (unfold Rdiv; ring).
  rewrite int_of_float_zero in Hk. lia.
Qed.

Lemma init_bits_false n p self i :
  init n p = Ok self -> bit self i = false.
Proof.
  intros E. apply init_inv in E as (_ & _ & _ & ->).
  unfold bit. simpl. destruct (0 <=? i); [simpl | reflexivity].
  destruct (replicate _ false !! Z.to_nat i) as [b|] eqn:Hb; [|reflexivity].
  apply lookup_replicate in Hb as [-> _]. reflexivity.
Qed.

End Construction.

(** ** Sequences of calls *)

Section Runs.

Variable mmh3_hash : string -> Z -> Z.

Local Abbreviation add := (add mmh3_hash).
Local Abbreviation check := (check mmh3_hash).
Local Abbreviation exec := (exec mmh3_hash).
Local Abbreviation run := (run mmh3_hash).
Local Abbreviation indices item self :=
  (hash_indices mmh3_hash item (hash_count self) (size self)).

Lemma indices_in_range item self d :
  wf self -> d ∈ indices item self -> 0 <= d < size self.
Proof.
  intros W Hd. unfold hash_indices in Hd.
  apply list_elem_of_In, in_map_iff in Hd as (i & <- & Hi).
  apply Z.mod_pos_bound, (wf_rounds self W).
  intros E. rewrite E in Hi. contradiction.
Qed.

Lemma probed_subset self ds d : d ∈ probed self ds -> d ∈ ds.
Proof.
  induction ds as [|d' ds IH]; simpl; [auto|].
  rewrite !elem_of_cons. intros [->|H]; [auto|].
  destruct (bit self d'); [auto | inversion H].
Qed.

Lemma indices_frame item s s' :
  frame s s' -> indices item s' = indices item s.
Proof. intros (_ & -> & -> & _). reflexivity. Qed.

Lemma present_frame item s s' :
  frame s s' ->
  forallb (bit s) (indices item s) = true ->
  forallb (bit s') (indices item s') = true.
Proof.
  intros F. rewrite (indices_frame item s s' F), !forallb_forall.
  intros H d Hd. eapply frame_bit; eauto.
Qed.

Lemma present_after_add item self :
  wf self ->
  forallb (bit (final (add item) self)) (indices item (final (add item) self))
  = true.
Proof.
  intros W. rewrite (indices_frame item _ _ (add_frame _ item self)).
  unfold final. rewrite add_exact by assumption. simpl.
  apply forallb_forall. intros d Hd. apply list_elem_of_In in Hd.
  pose proof (indices_in_range item self d W Hd) as Hr.
  unfold bit. simpl. destruct (Z.leb_spec 0 d); [simpl | lia].
  rewrite set_bits_hit; [reflexivity | assumption |].
  destruct W as [W1 _]. lia.
Qed.

Lemma exec_wf o self :
  wf self ->
  exists r self' t,
    exec o self = (Ok r, self', t)
    /\ frame self self'
    /\ Forall (fun e => 0 <= index_of e < size self) t
    /\ match o with
       | CallAdd item =>
           r = None /\ self' = final (add item) self
       | CallCheck item =>
           r = Some (forallb (bit self) (indices item self)) /\ self' = self
       end.
Proof.
  intros W. destruct o as [item|item]; unfold exec.
  - pose proof (add_frame mmh3_hash item self) as F. unfold final in *.
    rewrite (M_bind_ok _ _ _ _ _ _ (add_exact _ item self W)).
    rewrite add_exact in * by assumption. simpl in *.
    do 3 eexists. split; [reflexivity|]. split; [exact F|]. split; [|auto].
    rewrite app_nil_r. apply Forall_forall. intros e He.
    apply list_elem_of_In, in_map_iff in He as (d & <- & Hd). simpl.
    apply (indices_in_range item self d W). now apply list_elem_of_In.
  - rewrite (M_bind_ok _ _ _ _ _ _ (check_exact _ item self W)). simpl.
    do 3 eexists. split; [reflexivity|]. split; [apply frame_refl|].
    split; [|auto].
    rewrite app_nil_r. apply Forall_forall. intros e He.
    apply list_elem_of_In, in_map_iff in He as (d & <- & Hd). simpl.
    apply (indices_in_range item self d W).
    apply probed_subset with self. now apply list_elem_of_In.
Qed.

(** A run on a well-formed object never raises; it only sets bits; every
    index it touches is in range; and a [check] answers [True] for an item
    whose bits are all set before the run or that the run added earlier. *)
Lemma run_wf ops : forall self,
  wf self ->
  exists outs self' t,
    run ops self = (Ok outs, self', t)
    /\ frame self self'
    /\ length outs = length ops
    /\ Forall (fun e => 0 <= index_of e < size self) t
    /\ (forall j item,
          ops !! j = Some (CallCheck item) ->
          forallb (bit self) (indices item self) = true ->
          outs !! j = Some (Some true))
    /\ (forall i j item,
          (i < j)%nat ->
          ops !! i = Some (CallAdd item) ->
          ops !! j = Some (CallCheck item) ->
          outs !! j = Some (Some true)).
Proof.
  induction ops as [|o ops IH]; intros self W.
  - exists [], self, []. split; [reflexivity|]. split; [apply frame_refl|].
    split; [reflexivity|]. split; [constructor|].
    split; intros; discriminate.
  - destruct (exec_wf o self W) as (r & s1 & t1 & E1 & F1 & R1 & Ho).
    destruct (IH s1 (frame_wf _ _ F1 W))
      as (outs & s2 & t2 & E2 & F2 & L2 & R2 & P2 & Q2).
    exists (r :: outs), s2, (t1 ++ t2).
    split.
    { simpl run. rewrite (M_bind_ok _ _ _ _ _ _ E1).
      rewrite (M_bind_ok _ _ _ _ _ _ E2). simpl.
      rewrite app_nil_r. reflexivity. }
    split; [eapply frame_trans; eassumption|].
    split; [simpl; congruence|].
    split.
    { apply Forall_app. split; [assumption|].
      destruct F1 as (_ & <- & _). assumption. }
    split.
    + intros [|j] item Hj Hp; simpl in Hj |- *.
      * inversion Hj; subst o. destruct Ho as [-> _]. now rewrite Hp.
      * apply (P2 j item Hj). eapply present_frame; eassumption.
    + intros i [|j] item Hij Hi Hj; [lia|].
      destruct i as [|i]; simpl in Hi, Hj |- *.
      * inversion Hi; subst o. destruct Ho as [_ ->].
        apply (P2 j item Hj). apply present_after_add. assumption.
      * apply (Q2 i j item); [lia | assumption | assumption].
Qed.

End Runs.

(** ** The example objects are what the constructor builds *)

Section Examples.

Variable uninitialised : nat -> bool.

Local Abbreviation init := (init uninitialised).

Lemma derived_size_20_005 : derived_size 20 (5 / 100) = 124.
Proof.
  pose proof get_size_20_005 as E. rewrite get_size_eq in E by lra.
  now inversion E.
Qed.

Lemma derived_hash_count_20_005 : derived_hash_count 20 (5 / 100) = 4.
Proof.
  unfold derived_hash_count. rewrite derived_size_20_005.
  pose proof get_hash_count_124_20 as E.
  rewrite get_hash_count_eq in E by discriminate. now inversion E.
Qed.

Lemma init_20_005 : init 20 (5 / 100) = Ok filter_20_005.
Proof.
  rewrite init_ok.
  - rewrite derived_hash_count_20_005, derived_size_20_005. reflexivity.
  - lra.
  - discriminate.
  - rewrite derived_size_20_005. lia.
Qed.

Lemma derived_size_1_05 : derived_size 1 (1 / 2) = 1.
Proof.
  unfold derived_size.
  replace (1 / 2)%R with (/ 2)%R by lra. rewrite ln_Rinv by lra.
  pose proof LnBoundsFacts.ln2_bounds as [L1 L2].
  replace (- (1 * - ln 2) / ln 2 ^ 2)%R with (/ ln 2)%R by (field; lra).
  assert (H1 : (1 <= / ln 2)%R).
  { apply Rmult_le_reg_r with (ln 2); [lra|]. rewrite Rinv_l by lra. lra. }
  assert (H2 : (/ ln 2 < 2)%R).
  { apply Rmult_lt_reg_r with (ln 2); [lra|]. rewrite Rinv_l by lra. lra. }
  apply int_of_float_eq; lra.
Qed.

Lemma derived_hash_count_1_05 : derived_hash_count 1 (1 / 2) = 0.
Proof.
  unfold derived_hash_count. rewrite derived_size_1_05.
  pose proof LnBoundsFacts.ln2_bounds as [L1 L2].
  apply int_of_float_eq; lra.
Qed.

Lemma init_1_05 : init 1 (1 / 2) = Ok filter_1_05.
Proof.
  rewrite init_ok.
  - rewrite derived_hash_count_1_05, derived_size_1_05. reflexivity.
  - lra.
  - discriminate.
  - rewrite derived_size_1_05. lia.
Qed.

Lemma derived_size_1_075 : derived_size 1 (3 / 4) = 0.
Proof.
  unfold derived_size.
  replace (3 / 4)%R with (/ (4 / 3))%R by lra. rewrite ln_Rinv by lra.
  pose proof LnBoundsFacts.ln2_bounds as [L1 L2].
  pose proof ln2_sqr_pos as Hq.
  pose proof (LnBoundsFacts.ln_upper (4 / 3) ltac:(lra)) as U.
  pose proof (LnBoundsFacts.ln_lower (4 / 3) ltac:(lra)) as L.
  replace (- (1 * - ln (4 / 3)) / ln 2 ^ 2)%R
    with (ln (4 / 3) / ln 2 ^ 2)%R by (field; lra).
  assert (H0 : (0 <= ln (4 / 3) / ln 2 ^ 2)%R).
  { apply Rmult_le_reg_r with (ln 2 ^ 2)%R; [assumption|].
    unfold Rdiv. rewrite Rmult_assoc, Rinv_l by lra. lra. }
  assert (H1 : (ln (4 / 3) / ln 2 ^ 2 < 1)%R).
  { apply Rmult_lt_reg_r with (ln 2 ^ 2)%R; [assumption|].
    unfold Rdiv. rewrite Rmult_assoc, Rinv_l by lra. nra. }
  apply int_of_float_eq; [|split]; assumption || lra.
Qed.

Lemma derived_hash_count_zero_size n p :
  derived_size n p = 0 -> derived_hash_count n p = 0.
Proof.
  intros E. unfold derived_hash_count. rewrite E.
  replace (0 / IZR n * ln 2)%R with 0%R by (unfold Rdiv; ring).
  apply int_of_float_zero.
Qed.

Lemma init_1_075 : init 1 (3 / 4) = Ok filter_1_075.
Proof.
  rewrite init_ok.
  - rewrite (derived_hash_count_zero_size _ _ derived_size_1_075).
    rewrite derived_size_1_075. reflexivity.
  - lra.
  - discriminate.
  - rewrite derived_size_1_075. lia.
Qed.



End Examples.

(** The hash of the examples agrees with published values of MurmurHash3
    and of [mmh3.hash]. *)
Example murmur3_vectors :
  Murmur3.hash32 (Murmur3.bytes_of "") 0 = 0
  /\ Murmur3.hash32 (Murmur3.bytes_of "") 1 = 0x514E28B7
  /\ Murmur3.hash32 (Murmur3.bytes_of "test") 0 = 0xba6bd213
  /\ Murmur3.hash32 (Murmur3.bytes_of "Hello, world!") 0 = 0xc0363e43
  /\ Murmur3.mmh3_hash "foo" 0 = -156908512
  /\ Murmur3.mmh3_hash "foo" 42 = -1322301282.
Proof. vm_compute. repeat split. Qed.

(** ** Auxiliary facts for the main results *)

Lemma truncated_toward_zero_unique x z1 z2 :
  truncated_toward_zero x z1 -> truncated_toward_zero x z2 -> z1 = z2.
Proof.
  intros [A1 A2] [B1 B2].
  destruct (Rle_dec 0 x) as [H|H].
  - specialize (A1 H). specialize (B1 H).
    rewrite <- (Zfloor_eq z1 x A1). now apply Zfloor_eq.
  - assert (Hx : (x <= 0)%R) by lra. specialize (A2 Hx). specialize (B2 Hx).
    rewrite <- (Zceil_eq z1 x A2). now apply Zceil_eq.
Qed.

Lemma range_pos k :
  1 <= k -> exists rounds, Py.range k = 0 :: rounds.
Proof.
  intros H. unfold Py.range.
  destruct (Z.to_nat k) as [|m] eqn:E; [lia|].
  simpl. eauto.
Qed.

Lemma length_range k : length (Py.range k) = Z.to_nat k.
Proof. unfold Py.range. now rewrite length_map, length_seq. Qed.

Lemma forallb_false_iff {A} (f : A -> bool) l :
  forallb f l = false <-> exists x, x ∈ l /\ f x = false.
Proof.
  induction l as [|a l IH]; simpl.
  - split; [discriminate|]. intros (x & Hx & _). inversion Hx.
  - rewrite andb_false_iff, IH. split.
    + intros [H|(x & Hx & Hf)]; [exists a | exists x];
        (split; [|assumption]); [left | now right].
    + intros (x & Hx & Hf). apply elem_of_cons in Hx as [->|Hx]; eauto.
Qed.

Lemma forallb_true_iff {A} (f : A -> bool) l :
  forallb f l = true <-> forall x, x ∈ l -> f x = true.
Proof.
  rewrite forallb_forall. split; intros H x Hx; apply H;
    now apply list_elem_of_In.
Qed.

Lemma probed_all_set self ds :
  (forall d, d ∈ ds -> bit self d = true) -> probed self ds = ds.
Proof.
  induction ds as [|d ds IH]; intros H; [reflexivity|].
  simpl. rewrite (H d) by left. f_equal. apply IH.
  intros d' Hd'. apply H. now right.
Qed.

Lemma probed_first_unset self pre d post :
  (forall d', d' ∈ pre -> bit self d' = true) ->
  bit self d = false ->
  probed self (pre ++ d :: post) = pre ++ [d].
Proof.
  induction pre as [|a pre IH]; intros H Hd; simpl.
  - now rewrite Hd.
  - rewrite (H a) by left. f_equal. apply IH; [|assumption].
    intros d' Hd'. apply H. now right.
Qed.

Section RunFacts.

Variable mmh3_hash : string -> Z -> Z.

Local Abbreviation add := (add mmh3_hash).
Local Abbreviation run := (run mmh3_hash).

Lemma final_run_frame ops self :
  wf self -> frame self (final (run ops) self) /\ wf (final (run ops) self).
Proof.
  intros W. destruct (run_wf mmh3_hash ops self W)
    as (outs & s' & t & E & F & _).
  unfold final. rewrite E. simpl. split; [assumption|].
  eapply frame_wf; eassumption.
Qed.

Lemma add_twice item self :
  wf self -> final (add item) (final (add item) self) = final (add item) self.
Proof.
  intros W.
  pose proof (add_frame mmh3_hash item self) as F.
  pose proof (frame_wf _ _ F W) as W'.
  unfold final in *. rewrite (add_exact _ item _ W').
  rewrite (add_exact _ item _ W) in *. simpl.
  unfold with_bits. simpl. now rewrite set_bits_idemp.
Qed.

Lemma final_run_add_cons item ops self :
  wf self ->
  final (run (CallAdd item :: ops)) self
  = final (run ops) (final (add item) self).
Proof.
  intros W.
  pose proof (add_frame mmh3_hash item self) as F.
  pose proof (frame_wf _ _ F W) as W'.
  destruct (run_wf mmh3_hash ops _ W') as (outs & s' & t & E & _).
  unfold final in *. simpl (run (_ :: _)). unfold exec.
  rewrite (add_exact _ item _ W) in *. simpl in E.
  erewrite M_bind_ok; [|erewrite M_bind_ok; [reflexivity | apply add_exact, W]].
  simpl. erewrite M_bind_ok; [|exact E]. simpl. now rewrite E.
Qed.

Lemma final_run_adds item N : forall self,
  wf self ->
  final (run (replicate (S N) (CallAdd item))) self = final (add item) self.
Proof.
  induction N as [|N IH]; intros self W.
  - change (replicate 1 (CallAdd item)) with [CallAdd item].
    rewrite final_run_add_cons by assumption. reflexivity.
  - change (replicate (S (S N)) (CallAdd item))
      with (CallAdd item :: replicate (S N) (CallAdd item)).
    rewrite final_run_add_cons by assumption.
    rewrite IH by (eapply frame_wf; [apply add_frame | assumption]).
    now apply add_twice.
Qed.

End RunFacts.

Lemma hash_indices_pos mmh3_hash item k m :
  1 <= k ->
  exists rest, hash_indices mmh3_hash item k m = mmh3_hash item 0 mod m :: rest.
Proof.
  intros Hk. unfold hash_indices. destruct (range_pos _ Hk) as [rounds ->].
  simpl. eauto.
Qed.

Lemma length_hash_indices mmh3_hash item k m :
  length (hash_indices mmh3_hash item k m) = Z.to_nat k.
Proof. unfold hash_indices. now rewrite length_map, length_range. Qed.



Lemma hash_indices_elem mmh3_hash item k m d :
  d ∈ hash_indices mmh3_hash item k m ->
  exists i, 0 <= i < k /\ d = mmh3_hash item i mod m.
Proof.
  unfold hash_indices. rewrite list_elem_of_In, in_map_iff.
  intros (i & <- & Hi). exists i. split; [|reflexivity].
  now apply in_range, list_elem_of_In.
Qed.

Lemma add_no_rounds mmh3_hash item self :
  hash_count self = 0 -> add mmh3_hash item self = (Ok tt, self, []).
Proof.
  intros Hk. unfold add, add_digests.
  assert (E : (attr hash_count ≫= fun k => add_loop mmh3_hash item (Py.range k) [])
                self = (Ok [], self, [])).
  { rewrite attr_bind, Hk. reflexivity. }
  rewrite (M_bind_ok _ _ _ _ _ _ E). reflexivity.
Qed.

Lemma check_no_rounds mmh3_hash item self :
  hash_count self = 0 -> check mmh3_hash item self = (Ok true, self, []).
Proof. intros Hk. unfold check. rewrite attr_bind, Hk. reflexivity. Qed.

(** * The properties of the specification *)

Section Claims.

Variable mmh3_hash : string -> Z -> Z.
Variable uninitialised : nat -> bool.

Local Abbreviation init := (init uninitialised).
Local Abbreviation add := (add mmh3_hash).
Local Abbreviation add_digests := (add_digests mmh3_hash).
Local Abbreviation check := (check mmh3_hash).
Local Abbreviation run := (run mmh3_hash).
Local Abbreviation hash_indices := (hash_indices mmh3_hash).

(** C1 (no false negatives).  On a constructed filter, in every sequence
    of [add] and [check] calls, a [check(x)] that comes after an [add(x)]
    returns [True]; the sequence itself never raises. *)
Theorem no_false_negatives n p self0 ops i j item :
  init n p = Ok self0 ->
  (i < j)%nat ->
  ops !! i = Some (CallAdd item) ->
  ops !! j = Some (CallCheck item) ->
  exists outs,
    outcome (run ops) self0 = Ok outs /\ outs !! j = Some (Some true).
Proof.
  intros E Hij Hi Hj.
  destruct (run_wf mmh3_hash ops self0 (init_wf _ _ _ _ E))
    as (outs & s' & t & Er & _ & _ & _ & _ & Q).
  exists outs. unfold outcome. rewrite Er. split; [reflexivity|].
  exact (Q i j item Hij Hi Hj).
Qed.

(** C2, as amended (empty filter).  A freshly constructed filter whose
    [hash_count] is at least 1 answers [False] to [check] for every
    item, and the call leaves the filter as it was. *)
Theorem empty_filter_check_false n p self item :
  init n p = Ok self ->
  1 <= hash_count self ->
  outcome (check item) self = Ok false /\ final (check item) self = self.
Proof.
  intros E Hk. pose proof (init_wf _ _ _ _ E) as W.
  unfold outcome, final. rewrite check_exact by assumption. simpl.
  split; [|reflexivity]. f_equal.
  destruct (hash_indices_pos mmh3_hash item _ (size self) Hk) as [rest ->].
  simpl. now rewrite (init_bits_false _ _ _ _ _ E).
Qed.

(** C3, as amended (size invariants).  After a successful construction
    [size] is at least 0, and [hash_count] is at least 0 when
    [items_count] is at least 1; either may be 0.  Both keep their value
    through every sequence of [add] and [check] calls. *)
Theorem size_invariants n p self0 :
  init n p = Ok self0 ->
  0 <= size self0
  /\ (1 <= n -> 0 <= hash_count self0)
  /\ forall ops,
       size (final (run ops) self0) = size self0
       /\ hash_count (final (run ops) self0) = hash_count self0.
Proof.
  intros E. pose proof (init_wf _ _ _ _ E) as W.
  apply init_inv in E as (Hp & Hn & Hs & ->). simpl.
  split; [assumption|]. split.
  - intros H1. unfold derived_hash_count. apply int_of_float_nonneg.
    apply IZR_le in Hs, H1. pose proof ln2_pos.
    apply Rmult_le_pos; [|lra].
    apply Rmult_le_pos; [assumption|].
    apply Rlt_le, Rinv_0_lt_compat. lra.
  - intros ops.
    destruct (final_run_frame mmh3_hash ops _ W) as [(_ & F2 & F3 & _) _].
    simpl in F2, F3. auto.
Qed.


(** C5 (contract of [check]).  On any state of a constructed filter,
    [add] computes the index sequence [hash_indices(item, k, m)] and
    writes exactly those positions; [check] probes the same sequence in
    order and stops after the first position that holds [False]: it
    returns [False] exactly when some position of the sequence holds
    [False], and [True] exactly when all of them hold [True]. *)
Theorem check_contract n p self0 ops self item :
  init n p = Ok self0 ->
  final (run ops) self0 = self ->
  outcome (add_digests item) self
  = Ok (hash_indices item (hash_count self) (size self))
  /\ trace (add item) self
     = List.map Write (hash_indices item (hash_count self) (size self))
  /\ length (hash_indices item (hash_count self) (size self))
     = Z.to_nat (hash_count self)
  /\ (outcome (check item) self = Ok false
      <-> exists d, d ∈ hash_indices item (hash_count self) (size self)
                    /\ bit self d = false)
  /\ (outcome (check item) self = Ok true
      <-> forall d, d ∈ hash_indices item (hash_count self) (size self)
                    -> bit self d = true)
  /\ ((forall d, d ∈ hash_indices item (hash_count self) (size self)
                 -> bit self d = true) ->
      trace (check item) self
      = List.map Read (hash_indices item (hash_count self) (size self)))
  /\ (forall pre d post,
        hash_indices item (hash_count self) (size self) = pre ++ d :: post ->
        (forall d', d' ∈ pre -> bit self d' = true) ->
        bit self d = false ->
        trace (check item) self = List.map Read (pre ++ [d])).
Proof.
  intros E <-.
  destruct (final_run_frame mmh3_hash ops self0 (init_wf _ _ _ _ E)) as [_ W].
  set (self := final (run ops) self0) in *.
  unfold outcome, trace.
  rewrite add_digests_exact, add_exact, check_exact by assumption. simpl.
  split; [reflexivity|]. split; [reflexivity|].
  split; [apply length_hash_indices|].
  split.
  { rewrite <- forallb_false_iff. split; [now inversion 1 | now intros ->]. }
  split.
  { rewrite <- forallb_true_iff. split; [now inversion 1 | now intros ->]. }
  split.
  { intros H. now rewrite probed_all_set. }
  intros pre d post Hd Hpre Hbit. rewrite Hd.
  now rewrite probed_first_unset.
Qed.

(** C6 (idempotence of [add]).  On any state of a constructed filter,
    calling [add(x)] N times, N at least 1, leaves the filter in the
    state that one [add(x)] leaves it in. *)
Theorem add_idempotent n p self0 ops self item N :
  init n p = Ok self0 ->
  final (run ops) self0 = self ->
  (1 <= N)%nat ->
  final (run (replicate N (CallAdd item))) self = final (add item) self.
Proof.
  intros E <- HN.
  destruct (final_run_frame mmh3_hash ops self0 (init_wf _ _ _ _ E)) as [_ W].
  destruct N as [|N]; [lia|].
  now apply final_run_adds.
Qed.

(** C7 (monotonicity and frame).  On every object, [add] leaves every
    set bit set, and leaves the length of the bit array, [fp_prob],
    [size] and [hash_count] as they were; [check] leaves the whole object
    as it was and writes nothing. *)
Theorem mutation_frame item self :
  (forall i, bit_array self !! i = Some true ->
             bit_array (final (add item) self) !! i = Some true)
  /\ length (bit_array (final (add item) self)) = length (bit_array self)
  /\ fp_prob (final (add item) self) = fp_prob self
  /\ size (final (add item) self) = size self
  /\ hash_count (final (add item) self) = hash_count self
  /\ final (check item) self = self
  /\ Forall (fun e => is_write e = false) (trace (check item) self).
Proof.
  destruct (add_frame mmh3_hash item self) as (F1 & F2 & F3 & F4 & F5).
  destruct (check_read_only mmh3_hash item self) as [C1 C2].
  repeat split; assumption.
Qed.

(** C8 (in-range indexing).  In every sequence of [add] and [check]
    calls on a constructed filter, every index read or written lies in
    [0, size) and inside the bit array; each index that [add] or [check]
    uses for an item is a hash of the item reduced modulo [size], whatever
    the sign of the hash. *)
Theorem index_in_range n p self0 ops :
  init n p = Ok self0 ->
  Forall (fun e => 0 <= index_of e < size self0
                   /\ index_of e < Z.of_nat (length (bit_array self0)))
         (trace (run ops) self0)
  /\ (forall item e,
        e ∈ trace (add item) (final (run ops) self0)
            ++ trace (check item) (final (run ops) self0) ->
        exists i, 0 <= i < hash_count self0
                  /\ index_of e = mmh3_hash item i mod size self0
                  /\ 0 <= index_of e < size self0).
Proof.
  intros E. pose proof (init_wf _ _ _ _ E) as W.
  split.
  - destruct (run_wf mmh3_hash ops self0 W) as (outs & s' & t & Er & _ & _ & R & _).
    unfold trace. rewrite Er. simpl.
    eapply Forall_impl; [exact R|]. simpl. intros e He.
    destruct W as [-> _]. lia.
  - intros item e He.
    destruct (final_run_frame mmh3_hash ops self0 W) as [F W'].
    set (self := final (run ops) self0) in *.
    unfold trace in He. rewrite add_exact, check_exact in He by assumption.
    simpl in He. destruct F as (_ & F2 & F3 & _). rewrite F2, F3 in He.
    assert (Hd : index_of e ∈ hash_indices item (hash_count self0) (size self0)).
    { apply elem_of_app in He as [He|He];
        apply list_elem_of_In, in_map_iff in He as (d & <- & Hd); simpl;
        apply list_elem_of_In in Hd; [assumption|].
      eapply probed_subset; eassumption. }
    destruct (hash_indices_elem _ _ _ _ _ Hd) as (i & Hi & Hidx).
    exists i. split; [assumption|]. split; [assumption|].
    now apply (indices_in_range mmh3_hash item self0).
Qed.

(** C10 (degenerate hash count).  On an object whose [hash_count] is 0,
    [add] changes nothing and touches no bit, and [check] returns [True]
    for every item, also when nothing was added.  The constructor does
    yield such filters for parameters of the documented domain. *)
Theorem degenerate_hash_count :
  (forall self item,
     hash_count self = 0 ->
     add item self = (Ok tt, self, [])
     /\ check item self = (Ok true, self, []))
  /\ (exists n p self,
        1 <= n /\ (0 < p < 1)%R /\ init n p = Ok self /\ hash_count self = 0).
Proof.
  split.
  - intros self item Hk. split.
    + now apply add_no_rounds.
    + now apply check_no_rounds.
  - exists 1, (3 / 4)%R, filter_1_075.
    split; [lia|]. split; [lra|]. split; [apply init_1_075 | reflexivity].
Qed.

End Claims.

(** ** Logarithm bounds of higher precision *)

Section LnWideFacts.

Variable D : Z.
Hypothesis HD0 : 0 < D.

Local Abbreviation sq_up := (LnWide.sq_up D).
Local Abbreviation sq_down := (LnWide.sq_down D).
Local Abbreviation fx := (LnWide.fx D).
Local Abbreviation iter_sq := LnBounds.iter_sq.
Local Abbreviation lower_checks := (LnWide.lower_checks D).
Local Abbreviation upper_checks := (LnWide.upper_checks D).


Lemma wide_D_pos : (0 < IZR D)%R.
Proof. apply IZR_lt. exact HD0. Qed.

Lemma wide_sq_up_ge a : a * a <= sq_up a * D.
Proof.
  unfold LnWide.sq_up.
  pose proof HD0 as HD.
  pose proof (Z.div_mod (a * a + D - 1) D ltac:(lia)) as E.
  pose proof (Z.mod_pos_bound (a * a + D - 1) D HD) as B.
  lia.
Qed.

Lemma wide_sq_down_le a : sq_down a * D <= a * a.
Proof.
  unfold LnWide.sq_down.
  pose proof HD0 as HD.
  pose proof (Z.div_mod (a * a) D ltac:(lia)) as E.
  pose proof (Z.mod_pos_bound (a * a) D HD) as B.
  lia.
Qed.

Lemma wide_sq_up_nonneg a : 0 <= sq_up a.
Proof.
  unfold LnWide.sq_up. apply Z.div_pos; [|exact HD0].
  pose proof HD0. nia.
Qed.

Lemma wide_sq_down_nonneg a : 0 <= sq_down a.
Proof.
  unfold LnWide.sq_down. apply Z.div_pos; [nia | exact HD0].
Qed.

Lemma wide_fx_sq_up a : (fx a ^ 2 <= fx (sq_up a))%R.
Proof.
  unfold LnWide.fx. pose proof wide_D_pos as HD.
  pose proof (IZR_le _ _ (wide_sq_up_ge a)) as H.
  rewrite !mult_IZR in H.
  apply Rmult_le_reg_r with (IZR D * IZR D)%R; [nra|].
  field_simplify; [|lra|lra]. nra.
Qed.

Lemma wide_fx_sq_down a : (fx (sq_down a) <= fx a ^ 2)%R.
Proof.
  unfold LnWide.fx. pose proof wide_D_pos as HD.
  pose proof (IZR_le _ _ (wide_sq_down_le a)) as H.
  rewrite !mult_IZR in H.
  apply Rmult_le_reg_r with (IZR D * IZR D)%R; [nra|].
  field_simplify; [|lra|lra]. nra.
Qed.

Lemma wide_fx_nonneg a : 0 <= a -> (0 <= fx a)%R.
Proof.
  intros H. unfold LnWide.fx. apply IZR_le in H. pose proof wide_D_pos.
  apply Rmult_le_pos; [lra|]. apply Rlt_le, Rinv_0_lt_compat. assumption.
Qed.

Lemma wide_iter_up_bound k : forall a, 0 <= a ->
  (fx a ^ (2 ^ k) <= fx (iter_sq sq_up k a))%R.
Proof.
  induction k as [|k IH]; intros a Ha.
  - simpl. lra.
  - rewrite LnBoundsFacts.pow_two_pow_S. simpl LnBounds.iter_sq.
    apply Rle_trans with (fx (sq_up a) ^ (2 ^ k))%R.
    + apply pow_incr. split; [apply pow2_ge_0 | apply wide_fx_sq_up].
    + apply IH, wide_sq_up_nonneg.
Qed.

Lemma wide_iter_down_bound k : forall a, 0 <= a ->
  (fx (iter_sq sq_down k a) <= fx a ^ (2 ^ k))%R.
Proof.
  induction k as [|k IH]; intros a Ha.
  - simpl. lra.
  - rewrite LnBoundsFacts.pow_two_pow_S. simpl LnBounds.iter_sq.
    apply Rle_trans with (fx (sq_down a) ^ (2 ^ k))%R.
    + apply IH, wide_sq_down_nonneg.
    + apply pow_incr. split; [apply wide_fx_nonneg, wide_sq_down_nonneg | apply wide_fx_sq_down].
Qed.

Lemma wide_ln_lower_bound X k s p q :
  lower_checks X k s p q = true -> (IZR p / IZR q <= ln (IZR X))%R.
Proof.
  unfold LnWide.lower_checks. rewrite !Bool.andb_true_iff.
  rewrite !Z.ltb_lt, !Z.leb_le. intros [[[Hq Hs] Hit] Hpq].
  pose proof wide_D_pos as HD.
  assert (HDs : (IZR D < IZR s)%R) by now apply IZR_lt.
  assert (Hs0 : (0 < IZR s)%R) by lra.
  assert (Hr : (0 < fx s)%R).
  { unfold LnWide.fx. apply Rdiv_lt_0_compat; lra. }
  assert (Hpow : (fx s ^ (2 ^ k) <= IZR X)%R).
  { eapply Rle_trans; [apply wide_iter_up_bound; lia|].
    unfold LnWide.fx. apply IZR_le in Hit. rewrite mult_IZR in Hit.
    apply Rmult_le_reg_r with (IZR D); [lra|].
    unfold Rdiv. rewrite Rmult_assoc, Rinv_l by lra. lra. }
  assert (Hln : (INR (2 ^ k) * ln (fx s) <= ln (IZR X))%R).
  { rewrite <- ln_pow by assumption.
    apply LnBoundsFacts.ln_le_mono; [apply pow_lt|]; assumption. }
  assert (Hlow : ((IZR s - IZR D) / IZR s <= ln (fx s))%R).
  { eapply Rle_trans; [|apply LnBoundsFacts.ln_lower; assumption].
    unfold LnWide.fx. right. field. lra. }
  apply IZR_lt in Hq. apply IZR_le in Hpq.
  rewrite !mult_IZR, minus_IZR in Hpq.
  rewrite LnBoundsFacts.INR_two_pow in Hln.
  set (T := IZR (2 ^ Z.of_nat k)) in *.
  assert (HT : (0 <= T)%R).
  { unfold T. apply IZR_le. apply Z.pow_nonneg. lia. }
  apply Rle_trans with (T * ((IZR s - IZR D) / IZR s))%R.
  - apply Rmult_le_reg_r with (IZR q * IZR s)%R; [nra|].
    field_simplify; [|lra|lra]. nra.
  - eapply Rle_trans; [|apply Hln]. apply Rmult_le_compat_l; assumption.
Qed.

Lemma wide_ln_upper_bound X k s p q :
  upper_checks X k s p q = true -> (ln (IZR X) <= IZR p / IZR q)%R.
Proof.
  unfold LnWide.upper_checks. rewrite !Bool.andb_true_iff.
  rewrite !Z.ltb_lt, !Z.leb_le. intros [[[[Hq Hs] HX] Hit] Hpq].
  pose proof wide_D_pos as HD.
  apply IZR_lt in Hs, HX.
  assert (Hr : (0 < fx s)%R).
  { unfold LnWide.fx. apply Rdiv_lt_0_compat; lra. }
  assert (Hpow : (IZR X <= fx s ^ (2 ^ k))%R).
  { eapply Rle_trans; [|apply wide_iter_down_bound; apply le_IZR; lra].
    unfold LnWide.fx. apply IZR_le in Hit. rewrite mult_IZR in Hit.
    apply Rmult_le_reg_r with (IZR D); [lra|].
    unfold Rdiv. rewrite Rmult_assoc, Rinv_l by lra. lra. }
  assert (Hln : (ln (IZR X) <= INR (2 ^ k) * ln (fx s))%R).
  { rewrite <- ln_pow by assumption.
    apply LnBoundsFacts.ln_le_mono; assumption. }
  assert (Hup : (ln (fx s) <= (IZR s - IZR D) / IZR D)%R).
  { eapply Rle_trans; [apply LnBoundsFacts.ln_upper; assumption|].
    unfold LnWide.fx. right. field. lra. }
  apply IZR_lt in Hq. apply IZR_le in Hpq.
  rewrite !mult_IZR, minus_IZR in Hpq.
  rewrite LnBoundsFacts.INR_two_pow in Hln.
  set (T := IZR (2 ^ Z.of_nat k)) in *.
  assert (HT : (0 <= T)%R).
  { unfold T. apply IZR_le. apply Z.pow_nonneg. lia. }
  apply Rle_trans with (T * ((IZR s - IZR D) / IZR D))%R.
  - eapply Rle_trans; [apply Hln|]. apply Rmult_le_compat_l; assumption.
  - apply Rmult_le_reg_r with (IZR q * IZR D)%R; [nra|].
    field_simplify; [|lra|lra]. nra.
Qed.

End LnWideFacts.

Lemma ln_lower_bound_wide D X k s p q :
  LnWide.lower_ok D X k s p q = true -> (IZR p / IZR q <= ln (IZR X))%R.
Proof.
  unfold LnWide.lower_ok. rewrite Bool.andb_true_iff, Z.ltb_lt.
  intros [HD H]. now apply (wide_ln_lower_bound D HD X k s).
Qed.

Lemma ln_upper_bound_wide D X k s p q :
  LnWide.upper_ok D X k s p q = true -> (ln (IZR X) <= IZR p / IZR q)%R.
Proof.
  unfold LnWide.upper_ok. rewrite Bool.andb_true_iff, Z.ltb_lt.
  intros [HD H]. now apply (wide_ln_upper_bound D HD X k s).
Qed.

(** ** The sizing functions in double precision *)

Lemma double_int_of_float_truncates x z :
  Double.int_of_float x = Ok z -> truncated_toward_zero (Double.value x) z.
Proof.
  unfold truncated_toward_zero.
  destruct x as [s|s| |s m e]; simpl; intros E; try discriminate.
  - inversion E. simpl. lra.
  - inversion E as [Hz]. clear E.
    assert (Hm : (0 < IZR (Z.pos m))%R) by (apply IZR_lt; lia).
    destruct (Z.leb_spec 0 e) as [He|He].
    + assert (Hp : 0 < 2 ^ e) by (apply Z.pow_pos_nonneg; lia).
      rewrite <- mult_IZR.
      destruct s; simpl; rewrite ?opp_IZR; lra.
    + assert (Hd : 0 < 2 ^ (- e)) by (apply Z.pow_pos_nonneg; lia).
      set (d := 2 ^ (- e)) in *.
      pose proof (Z.div_mod (Z.pos m) d ltac:(lia)) as Hdm.
      pose proof (Z.mod_pos_bound (Z.pos m) d Hd) as Hb.
      assert (Hq0 : 0 <= Z.pos m / d) by (apply Z.div_pos; lia).
      assert (H1 : Z.pos m / d * d <= Z.pos m) by lia.
      assert (H2 : Z.pos m < (Z.pos m / d + 1) * d) by lia.
      apply IZR_le in H1, Hq0. apply IZR_lt in H2, Hd.
      rewrite mult_IZR in H1. rewrite mult_IZR, plus_IZR in H2.
      set (q := IZR (Z.pos m / d)) in *. set (D := IZR d) in *.
      set (M := IZR (Z.pos m)) in *.
      assert (Ha1 : (q <= M / D)%R).
      { apply Rmult_le_reg_r with D; [assumption|].
        unfold Rdiv. rewrite Rmult_assoc, Rinv_l by lra. lra. }
      assert (Ha2 : (M / D < q + 1)%R).
      { apply Rmult_lt_reg_r with D; [assumption|].
        unfold Rdiv. rewrite Rmult_assoc, Rinv_l by lra. lra. }
      assert (Ha0 : (0 < M / D)%R) by (apply Rdiv_lt_0_compat; assumption).
      destruct s; simpl; rewrite ?opp_IZR; fold q; lra.
Qed.

(** [ln 2] to nineteen digits:
    [49180508/70952475 < ln 2 <= 49180508/70952474]. *)
Lemma ln2_bounds_wide :
  (49180508000000000001 / 70952475000000000000 <= ln 2
   <= 49180508 / 70952474)%R.
Proof.
  split.
  - apply (ln_lower_bound_wide (2 ^ 200) 2 70
             1606938044258990275542905555394064655698755047316155302972561).
    vm_compute. reflexivity.
  - apply (ln_upper_bound_wide (2 ^ 200) 2 70
             1606938044258990275542905555394064655698755047316155302972563).
    vm_compute. reflexivity.
Qed.

(** The exact formula at [n = 49180508], [p = 0.5]: its value
    [49180508 / ln 2] lies strictly between 70952474 and 70952475. *)
Lemma exact_get_size_49180508_half :
  get_size 49180508 (1 / 2) = Ok 70952474.
Proof.
  rewrite get_size_eq by lra. f_equal.
  pose proof ln2_bounds_wide as [L1 L2]. pose proof ln2_pos as HL.
  replace (1 / 2)%R with (/ 2)%R by lra. rewrite ln_Rinv by lra.
  replace (- (49180508 * - ln 2) / ln 2 ^ 2)%R with (49180508 / ln 2)%R
    by (field; lra).
  assert (H1 : (70952474 <= 49180508 / ln 2)%R).
  { apply Rmult_le_reg_r with (ln 2); [assumption|].
    unfold Rdiv. rewrite Rmult_assoc, Rinv_l by lra. lra. }
  assert (H2 : (49180508 / ln 2 < 70952475)%R).
  { apply Rmult_lt_reg_r with (ln 2); [assumption|].
    unfold Rdiv. rewrite Rmult_assoc, Rinv_l by lra. lra. }
  apply int_of_float_eq; [|split]; lra.
Qed.

Lemma result_bind_ok {A B} (r : result A) (f : A -> result B) b :
  r ≫= f = Ok b -> exists a, r = Ok a /\ f a = Ok b.
Proof. destruct r as [a|e]; [eauto | discriminate]. Qed.

Section DoubleSizing.

Variable libm_log : Double.double -> Double.double.
Variable libm_pow : Double.double -> Double.double -> Double.double.

Local Abbreviation math_log := (Double.math_log libm_log).
Local Abbreviation float_pow_two := (Double.float_pow_two libm_pow).
Local Abbreviation get_size_d := (Double.get_size libm_log libm_pow).
Local Abbreviation get_hash_count_d := (Double.get_hash_count libm_log).

Lemma double_get_size_inv n p z :
  get_size_d n p = Ok z ->
  exists x lp l2 sq m,
    Double.of_int n = Ok x
    /\ math_log p = Ok lp
    /\ math_log Double.two = Ok l2
    /\ float_pow_two l2 = Ok sq
    /\ Double.float_truediv (Double.opp (Double.mul x lp)) sq = Ok m
    /\ Double.int_of_float m = Ok z.
Proof.
  unfold Double.get_size. intros H.
  apply result_bind_ok in H as (lp & E1 & H).
  apply result_bind_ok in H as (x & E2 & H).
  apply result_bind_ok in H as (l2 & E3 & H).
  apply result_bind_ok in H as (sq & E4 & H).
  apply result_bind_ok in H as (m & E5 & H).
  exists x, lp, l2, sq, m. auto 10.
Qed.

Lemma double_get_hash_count_inv m n z :
  get_hash_count_d m n = Ok z ->
  exists q l2,
    Double.int_truediv m n = Ok q
    /\ math_log Double.two = Ok l2
    /\ Double.int_of_float (Double.mul q l2) = Ok z.
Proof.
  unfold Double.get_hash_count. intros H.
  apply result_bind_ok in H as (q & E1 & H).
  apply result_bind_ok in H as (l2 & E2 & H).
  exists q, l2. auto.
Qed.

Lemma double_math_log_two :
  libm_log Double.two = Double.log_2 -> math_log Double.two = Ok Double.log_2.
Proof. intros H. unfold Double.math_log. simpl. rewrite H. reflexivity. Qed.

Lemma double_get_size_20_005 :
  libm_log Double.two = Double.log_2 ->
  libm_log Double.p005 = Double.log_005 ->
  libm_pow Double.log_2 Double.two = Double.log_2_squared ->
  get_size_d 20 Double.p005 = Ok 124.
Proof.
  intros H2 H5 Hp. unfold Double.get_size.
  rewrite (double_math_log_two H2).
  unfold Double.math_log at 1. simpl Double.p005. cbv iota beta.
  rewrite H5. cbn -[Double.mul Double.div Double.of_int Double.float_pow_two].
  unfold Double.float_pow_two, Double.log_2.
  change (SFeqb (S754_finite false 6243314768165359 (-53)) Double.one)
    with false. cbv iota.
  fold Double.log_2. rewrite Hp. vm_compute. reflexivity.
Qed.

Lemma double_get_hash_count_124_20 :
  libm_log Double.two = Double.log_2 -> get_hash_count_d 124 20 = Ok 4.
Proof.
  intros H2. unfold Double.get_hash_count.
  rewrite (double_math_log_two H2). vm_compute. reflexivity.
Qed.

(** C9, as amended (sizing formulas).  [get_size(n, p)] is the double
    [-(n * log(p)) / (log(2) ** 2)], every operation rounded to a double,
    truncated toward zero, and [get_hash_count(m, n)] is the double
    [(m / n) * log(2)] truncated toward zero.  With the C library's
    values of [log(2.0)], [log(0.05)] and [pow(log(2.0), 2.0)], the size
    for [n = 20] and [p = 0.05] is 124 and the number of rounds is 4. *)
Theorem sizing_formulas :
  (forall n p z,
     get_size_d n p = Ok z ->
     exists x lp l2 sq m,
       Double.of_int n = Ok x
       /\ math_log p = Ok lp
       /\ math_log Double.two = Ok l2
       /\ float_pow_two l2 = Ok sq
       /\ Double.float_truediv (Double.opp (Double.mul x lp)) sq = Ok m
       /\ truncated_toward_zero (Double.value m) z)
  /\ (forall m n z,
       get_hash_count_d m n = Ok z ->
       exists q l2,
         Double.int_truediv m n = Ok q
         /\ math_log Double.two = Ok l2
         /\ truncated_toward_zero (Double.value (Double.mul q l2)) z)
  /\ (libm_log Double.two = Double.log_2 ->
      libm_log Double.p005 = Double.log_005 ->
      libm_pow Double.log_2 Double.two = Double.log_2_squared ->
      get_size_d 20 Double.p005 = Ok 124
      /\ get_hash_count_d 124 20 = Ok 4).
Proof.
  split; [|split].
  - intros n p z H.
    destruct (double_get_size_inv n p z H)
      as (x & lp & l2 & sq & m & E1 & E2 & E3 & E4 & E5 & E6).
    exists x, lp, l2, sq, m.
    repeat (split; [assumption|]).
    now apply double_int_of_float_truncates.
  - intros m n z H.
    destruct (double_get_hash_count_inv m n z H) as (q & l2 & E1 & E2 & E3).
    exists q, l2. repeat (split; [assumption|]).
    now apply double_int_of_float_truncates.
  - intros H2 H5 Hp. split.
    + now apply double_get_size_20_005.
    + now apply double_get_hash_count_124_20.
Qed.

End DoubleSizing.

(** * Instances on concrete filters

    The filters are the ones of the examples above; the hash is
    MurmurHash3 and a fresh bit array is taken to hold ones. *)

Local Open Scope string_scope.

(** C1 at [BloomFilter(20, 0.05)]: after [add("abound")], with a
    [check("abundant")] in between, [check("abound")] returns [True]. *)
Lemma no_false_negatives_witness :
  exists outs,
    outcome (run Murmur3.mmh3_hash
               [CallAdd "abound"; CallCheck "abundant"; CallCheck "abound"])
            filter_20_005 = Ok outs
    /\ outs !! 2%nat = Some (Some true).
Proof.
  apply (no_false_negatives Murmur3.mmh3_hash ones 20 (5 / 100) filter_20_005
           [CallAdd "abound"; CallCheck "abundant"; CallCheck "abound"]
           0%nat 2%nat "abound").
  - apply init_20_005.
  - lia.
  - reflexivity.
  - reflexivity.
Defined.

(** C2 as claimed fails at [BloomFilter(1, 0.5)]: the parameters are in
    the documented domain, nothing was added, and [check] returns [True]. *)
Lemma empty_filter_counterexample :
  1 <= 1
  /\ (0 < 1 / 2 < 1)%R
  /\ init ones 1 (1 / 2) = Ok filter_1_05
  /\ outcome (check Murmur3.mmh3_hash "abundant") filter_1_05 = Ok true.
Proof.
  split; [lia|]. split; [lra|]. split; [apply init_1_05|].
  unfold outcome. now rewrite check_no_rounds.
Qed.

(** C2 as amended, at [BloomFilter(20, 0.05)]. *)
Lemma empty_filter_check_false_witness :
  outcome (check Murmur3.mmh3_hash "abundant") filter_20_005 = Ok false
  /\ final (check Murmur3.mmh3_hash "abundant") filter_20_005 = filter_20_005.
Proof.
  apply (empty_filter_check_false Murmur3.mmh3_hash ones 20 (5 / 100)).
  - apply init_20_005.
  - simpl. lia.
Defined.

(** C3 as claimed fails at [BloomFilter(1, 0.75)]: the size and the
    number of rounds are both 0. *)
Lemma size_invariants_counterexample :
  1 <= 1
  /\ (0 < 3 / 4 < 1)%R
  /\ init ones 1 (3 / 4) = Ok filter_1_075
  /\ ~ (1 <= size filter_1_075 /\ 1 <= hash_count filter_1_075).
Proof.
  split; [lia|]. split; [lra|]. split; [apply init_1_075|].
  simpl. lia.
Qed.

(** C3 as amended, at [BloomFilter(20, 0.05)]. *)
Lemma size_invariants_witness :
  0 <= size filter_20_005
  /\ (1 <= 20 -> 0 <= hash_count filter_20_005)
  /\ forall ops,
       size (final (run Murmur3.mmh3_hash ops) filter_20_005)
       = size filter_20_005
       /\ hash_count (final (run Murmur3.mmh3_hash ops) filter_20_005)
          = hash_count filter_20_005.
Proof.
  apply (size_invariants Murmur3.mmh3_hash ones 20 (5 / 100)).
  apply init_20_005.
Defined.



(** C5 at [BloomFilter(20, 0.05)] after [add("abound")]. *)
Lemma check_contract_witness :
  outcome (add_digests Murmur3.mmh3_hash "abundant")
          (final (run Murmur3.mmh3_hash [CallAdd "abound"]) filter_20_005)
  = Ok (hash_indices Murmur3.mmh3_hash "abundant" 4 124)
  /\ (outcome (check Murmur3.mmh3_hash "abundant")
              (final (run Murmur3.mmh3_hash [CallAdd "abound"]) filter_20_005)
      = Ok false
      <-> exists d,
            d ∈ hash_indices Murmur3.mmh3_hash "abundant" 4 124
            /\ bit (final (run Murmur3.mmh3_hash [CallAdd "abound"])
                          filter_20_005) d = false).
Proof.
  destruct (check_contract Murmur3.mmh3_hash ones 20 (5 / 100) filter_20_005
              [CallAdd "abound"]
              (final (run Murmur3.mmh3_hash [CallAdd "abound"]) filter_20_005)
              "abundant" (init_20_005 ones) eq_refl)
    as (H1 & _ & _ & H4 & _).
  split; [exact H1 | exact H4].
Defined.

(** C6 at [BloomFilter(20, 0.05)]: three [add("abound")] against one. *)
Lemma add_idempotent_witness :
  final (run Murmur3.mmh3_hash (replicate 3 (CallAdd "abound"))) filter_20_005
  = final (add Murmur3.mmh3_hash "abound") filter_20_005.
Proof.
  apply (add_idempotent Murmur3.mmh3_hash ones 20 (5 / 100) filter_20_005 []).
  - apply init_20_005.
  - reflexivity.
  - lia.
Defined.

(** C8 at [BloomFilter(20, 0.05)], with the item ["foo"], whose hash for
    seed 0 is negative. *)
Lemma index_in_range_witness :
  Murmur3.mmh3_hash "foo" 0 < 0
  /\ Forall (fun e => 0 <= index_of e < 124
                      /\ index_of e < Z.of_nat (length (bit_array filter_20_005)))
            (trace (run Murmur3.mmh3_hash [CallAdd "foo"; CallCheck "foo"])
                   filter_20_005).
Proof.
  split; [reflexivity|].
  apply (index_in_range Murmur3.mmh3_hash ones 20 (5 / 100) filter_20_005
           [CallAdd "foo"; CallCheck "foo"]).
  apply init_20_005.
Defined.

(** C9 as claimed fails at [n = 10**400], where [get_size] raises an
    [OverflowError] and returns no number, and at [n = 49180508],
    [p = 0.5], where it returns 70952475 while the formula in exact
    arithmetic, truncated toward zero, gives 70952474. *)
Lemma sizing_formulas_counterexample :
  Double.get_size Double.sample_log Double.sample_pow (10 ^ 400) Double.p005
  = Raise OverflowError
  /\ Double.get_size Double.sample_log Double.sample_pow 49180508 Double.half
     = Ok 70952475
  /\ Double.value Double.half = (1 / 2)%R
  /\ get_size 49180508 (1 / 2) = Ok 70952474.
Proof.
  split; [vm_compute; reflexivity|].
  split; [vm_compute; reflexivity|].
  split; [|apply exact_get_size_49180508_half].
  unfold Double.value, Double.half.
  change (0 <=? -53)%Z with false. cbv iota.
  change (- -53)%Z with 53%Z. change (2 ^ 53)%Z with 9007199254740992%Z.
  lra.
Qed.

(** C9 as amended, at [n = 20], [p = 0.05], with the library of the
    examples. *)
Lemma sizing_formulas_witness :
  Double.get_size Double.sample_log Double.sample_pow 20 Double.p005 = Ok 124
  /\ Double.get_hash_count Double.sample_log 124 20 = Ok 4.
Proof.
  destruct (sizing_formulas Double.sample_log Double.sample_pow)
    as (_ & _ & H).
  apply H; reflexivity.
Defined.

(** C10 at [BloomFilter(1, 0.75)]: no hashing round, [add] does nothing
    and [check] returns [True] on the empty filter. *)
Lemma degenerate_hash_count_witness :
  add Murmur3.mmh3_hash "abundant" filter_1_075 = (Ok tt, filter_1_075, [])
  /\ check Murmur3.mmh3_hash "abundant" filter_1_075
     = (Ok true, filter_1_075, []).
Proof.
  destruct (degenerate_hash_count Murmur3.mmh3_hash ones) as (Hops & _).
  apply (Hops filter_1_075 "abundant"). reflexivity.
Defined.

(** The scenario of the specification, end to end: on
    [BloomFilter(20, 0.05)], after adding ["abound"], ["abounds"] and
    ["abundance"], [check("abundant")] is [False] and [check("abound")]
    is [True]. *)
Example end_to_end_scenario :
  outcome (run Murmur3.mmh3_hash
             [CallAdd "abound"; CallAdd "abounds"; CallAdd "abundance";
              CallCheck "abundant"; CallCheck "abound"])
          filter_20_005
  = Ok [None; None; None; Some false; Some true].
Proof. vm_compute. reflexivity. Qed.

(** * Further properties of the code *)

Local Close Scope string_scope.

(** ** Bit arrays, continued *)

Lemma set_bits_app ds1 ds2 a :
  set_bits (ds1 ++ ds2) a = set_bits ds2 (set_bits ds1 a).
Proof. unfold set_bits. apply foldl_app. Qed.

Lemma set_bits_same_elements ds1 ds2 a :
  (forall d, d ∈ ds1 <-> d ∈ ds2) -> set_bits ds1 a = set_bits ds2 a.
Proof.
  intros H. apply list_eq. intros j. rewrite !set_bits_lookup.
  destruct (a !! j) as [b|]; [simpl | reflexivity]. do 2 f_equal.
  apply eq_true_iff_eq. rewrite !existsb_exists.
  split; intros (d & Hd & E); exists d; (split; [|assumption]);
    apply list_elem_of_In, H, list_elem_of_In, Hd.
Qed.

Lemma popcount_insert a : forall i,
  (popcount (<[i := true]> a) <= S (popcount a))%nat.
Proof.
  induction a as [|b a IH]; intros [|i]; try (cbn; lia).
  change (<[S i := true]> (b :: a)) with (b :: <[i := true]> a).
  specialize (IH i). simpl. destruct b; lia.
Qed.

Lemma popcount_set_bits ds : forall a,
  (popcount (set_bits ds a) <= popcount a + length ds)%nat.
Proof.
  induction ds as [|d ds IH]; intros a; [simpl; lia|].
  change (set_bits (d :: ds) a) with (set_bits ds (<[Z.to_nat d := true]> a)).
  specialize (IH (<[Z.to_nat d := true]> a)).
  pose proof (popcount_insert a (Z.to_nat d)). simpl. lia.
Qed.

Lemma popcount_replicate_false n : popcount (replicate n false) = 0%nat.
Proof. induction n as [|n IH]; simpl; [reflexivity | exact IH]. Qed.

(** ** Truncation, continued *)

Lemma int_of_float_mono x y :
  (x <= y)%R -> Py.int_of_float x <= Py.int_of_float y.
Proof.
  intros H. unfold Py.int_of_float.
  destruct (Rle_dec 0 x) as [Hx|Hx], (Rle_dec 0 y) as [Hy|Hy]; try lra.
  - now apply Zfloor_le.
  - apply Z.le_trans with 0.
    + pose proof (Zceil_bound x) as [B _].
      assert (Zceil x < 1) by (apply lt_IZR; lra). lia.
    + apply Zfloor_lub. simpl. assumption.
  - now apply Zceil_le.
Qed.

Lemma int_of_float_nonpos x : (x <= 0)%R -> Py.int_of_float x <= 0.
Proof.
  intros H. rewrite <- int_of_float_zero. now apply int_of_float_mono.
Qed.

(** ** The state after a sequence of calls *)

Section RunState.

Variable mmh3_hash : string -> Z -> Z.

Local Abbreviation add := (add mmh3_hash).
Local Abbreviation check := (check mmh3_hash).
Local Abbreviation run := (run mmh3_hash).
Local Abbreviation hash_indices := (hash_indices mmh3_hash).

(** All digests of a list of items, on a filter of [k] rounds and [m]
    bits. *)
Local Abbreviation all_digests items k m :=
  (flat_map (fun item => hash_indices item k m) items).

Lemma final_run_check_cons item ops self :
  wf self ->
  final (run (CallCheck item :: ops)) self = final (run ops) self.
Proof.
  intros W.
  destruct (run_wf mmh3_hash ops _ W) as (outs & s' & t & E & _).
  unfold final. simpl (run (_ :: _)). unfold exec.
  erewrite M_bind_ok;
    [|erewrite M_bind_ok; [reflexivity | apply check_exact, W]].
  simpl. erewrite M_bind_ok; [|exact E]. simpl. now rewrite E.
Qed.

Lemma final_run_bits ops : forall self,
  wf self ->
  final (run ops) self
  = with_bits self
      (set_bits (all_digests (added ops) (hash_count self) (size self))
                (bit_array self)).
Proof.
  induction ops as [|[item|item] ops IH]; intros self W.
  - unfold final. simpl. now rewrite with_bits_id.
  - rewrite final_run_add_cons by assumption.
    pose proof (add_frame mmh3_hash item self) as F.
    rewrite IH by (eapply frame_wf; eassumption).
    unfold final in *. rewrite add_exact in * by assumption. simpl.
    unfold with_bits. simpl. rewrite set_bits_app. reflexivity.
  - rewrite final_run_check_cons by assumption. now apply IH.
Qed.

Lemma all_digests_in_range items self d :
  wf self ->
  d ∈ all_digests items (hash_count self) (size self) ->
  0 <= d < size self.
Proof.
  intros W Hd. apply list_elem_of_In, in_flat_map in Hd as (item & _ & Hd).
  apply (indices_in_range mmh3_hash item self d W).
  now apply list_elem_of_In.
Qed.

Lemma elem_of_all_digests items k m d :
  d ∈ all_digests items k m
  <-> exists item, item ∈ items /\ d ∈ hash_indices item k m.
Proof.
  rewrite list_elem_of_In, in_flat_map. split; intros (item & H1 & H2);
    exists item; split; now apply list_elem_of_In.
Qed.

Lemma length_all_digests items k m :
  length (all_digests items k m) = (length items * Z.to_nat k)%nat.
Proof.
  induction items as [|item items IH]; [reflexivity|].
  simpl. rewrite length_app, IH, length_hash_indices. lia.
Qed.

Lemma elem_of_added item ops : item ∈ added ops <-> CallAdd item ∈ ops.
Proof.
  unfold added. rewrite !list_elem_of_In, in_flat_map. split.
  - intros ([x|x] & Hx & Hi); simpl in Hi; [|contradiction].
    destruct Hi as [->|[]]. assumption.
  - intros H. exists (CallAdd item). split; [assumption | now left].
Qed.

Lemma added_app ops1 ops2 : added (ops1 ++ ops2) = added ops1 ++ added ops2.
Proof. unfold added. apply flat_map_app. Qed.

(** On a filter fresh from the constructor, after any calls, a bit is
    set exactly when it is a digest of an added item. *)
Lemma bit_after_run uninitialised n p self0 ops d :
  init uninitialised n p = Ok self0 ->
  0 <= d < size self0 ->
  bit (final (run ops) self0) d = true
  <-> d ∈ all_digests (added ops) (hash_count self0) (size self0).
Proof.
  intros E Hd. pose proof (init_wf _ _ _ _ E) as W.
  rewrite final_run_bits by assumption.
  pose proof (all_digests_in_range (added ops) self0) as Hr.
  set (D := all_digests (added ops) (hash_count self0) (size self0)) in *.
  apply init_inv in E as (_ & _ & Hs & ->). simpl in *.
  unfold bit. simpl. destruct (Z.leb_spec 0 d); [simpl | lia].
  rewrite set_bits_lookup, lookup_replicate_2 by lia. simpl.
  rewrite existsb_exists. split.
  - intros (d' & Hd' & Heq). apply Nat.eqb_eq in Heq.
    apply list_elem_of_In in Hd'. specialize (Hr d' W Hd').
    replace d with d' by lia. assumption.
  - intros HD. exists d. split; [now apply list_elem_of_In|].
    apply Nat.eqb_refl.
Qed.

End RunState.

(** ** Sizing, continued *)



Lemma add_nonpos_rounds mmh3_hash item self :
  hash_count self <= 0 -> add mmh3_hash item self = (Ok tt, self, []).
Proof.
  intros Hk. unfold add, add_digests.
  assert (E : (attr hash_count ≫= fun k => add_loop mmh3_hash item (Py.range k) [])
                self = (Ok [], self, [])).
  { rewrite attr_bind, range_nonpos by assumption. reflexivity. }
  rewrite (M_bind_ok _ _ _ _ _ _ E). reflexivity.
Qed.

Lemma check_nonpos_rounds mmh3_hash item self :
  hash_count self <= 0 -> check mmh3_hash item self = (Ok true, self, []).
Proof.
  intros Hk. unfold check. rewrite attr_bind, range_nonpos by assumption.
  reflexivity.
Qed.

Lemma set_bits_all_set ds a :
  (forall d, d ∈ ds -> a !! Z.to_nat d = Some true) -> set_bits ds a = a.
Proof.
  intros H. apply list_eq. intros j. rewrite set_bits_lookup.
  destruct (a !! j) as [b|] eqn:E; [simpl | reflexivity]. f_equal.
  destruct b; [reflexivity|]. simpl.
  destruct (existsb _ ds) eqn:Ex; [|reflexivity].
  apply existsb_exists in Ex as (d & Hd & Heq). apply Nat.eqb_eq in Heq.
  apply list_elem_of_In, H in Hd. congruence.
Qed.

Lemma bit_true_lookup self d :
  bit self d = true -> bit_array self !! Z.to_nat d = Some true.
Proof.
  unfold bit. destruct (0 <=? d); [simpl | discriminate].
  destruct (bit_array self !! Z.to_nat d) as [[|]|]; simpl; congruence.
Qed.

(** * Further properties, stated *)

Section Further.

Variable mmh3_hash : string -> Z -> Z.
Variable uninitialised : nat -> bool.

Local Abbreviation init := (init uninitialised).
Local Abbreviation add := (add mmh3_hash).
Local Abbreviation check := (check mmh3_hash).
Local Abbreviation run := (run mmh3_hash).
Local Abbreviation hash_indices := (hash_indices mmh3_hash).

(** X1.  The state of a filter after a sequence of calls depends only on
    which items were added: the order of the calls, repeated [add]s and
    interleaved [check]s make no difference. *)
Theorem state_depends_on_added_items n p self0 ops ops' :
  init n p = Ok self0 ->
  (forall item, CallAdd item ∈ ops <-> CallAdd item ∈ ops') ->
  final (run ops) self0 = final (run ops') self0.
Proof.
  intros E H. pose proof (init_wf _ _ _ _ E) as W.
  rewrite !final_run_bits by assumption. f_equal.
  apply set_bits_same_elements. intros d.
  rewrite !elem_of_all_digests. split; intros (item & Hi & Hd);
    exists item; (split; [|assumption]);
    apply elem_of_added, H, elem_of_added, Hi.
Qed.

(** X2.  After any calls on a freshly constructed filter, [check(y)]
    returns [True] exactly when every digest of [y] is a digest of some
    item that was added; so a false positive is exactly a cover of the
    digests of [y] by those of the added items. *)
Theorem check_true_iff_covered n p self0 ops item :
  init n p = Ok self0 ->
  outcome (check item) (final (run ops) self0) = Ok true
  <-> forall d,
        d ∈ hash_indices item (hash_count self0) (size self0) ->
        exists x, CallAdd x ∈ ops
                  /\ d ∈ hash_indices x (hash_count self0) (size self0).
Proof.
  intros E. pose proof (init_wf _ _ _ _ E) as W.
  destruct (final_run_frame mmh3_hash ops self0 W) as [F W'].
  unfold outcome. rewrite check_exact by assumption. simpl.
  destruct F as (_ & -> & -> & _).
  split.
  - intros H d Hd. inversion H as [Hall].
    rewrite forallb_true_iff in Hall. specialize (Hall d Hd).
    apply (bit_after_run mmh3_hash uninitialised n p) in Hall;
      [|assumption | now apply (indices_in_range mmh3_hash item self0)].
    apply elem_of_all_digests in Hall as (x & Hx & Hdx).
    exists x. split; [now apply elem_of_added | assumption].
  - intros H. f_equal. apply forallb_true_iff. intros d Hd.
    apply (bit_after_run mmh3_hash uninitialised n p);
      [assumption | now apply (indices_in_range mmh3_hash item self0) |].
    destruct (H d Hd) as (x & Hx & Hdx).
    apply elem_of_all_digests. exists x.
    split; [now apply elem_of_added | assumption].
Qed.

(** X3.  A positive answer is permanent: once [check(x)] has returned
    [True] on a filter, it returns [True] after any further calls,
    whether or not [x] itself was ever added. *)
Theorem positive_answer_persists n p self0 ops more item :
  init n p = Ok self0 ->
  outcome (check item) (final (run ops) self0) = Ok true ->
  outcome (check item) (final (run (ops ++ more)) self0) = Ok true.
Proof.
  intros E H. pose proof (init_wf _ _ _ _ E) as W.
  destruct (final_run_frame mmh3_hash ops self0 W) as [F1 W1].
  destruct (final_run_frame mmh3_hash (ops ++ more) self0 W) as [F2 W2].
  unfold outcome in *. rewrite check_exact in * by assumption. simpl in *.
  inversion H as [Hall]. rewrite Hall. f_equal.
  rewrite forallb_true_iff in Hall. apply forallb_true_iff.
  destruct F1 as (_ & F1s & F1k & _). destruct F2 as (_ & -> & -> & _).
  rewrite F1s, F1k in Hall.
  intros d Hd. specialize (Hall d Hd).
  pose proof (indices_in_range mmh3_hash item self0 d W Hd) as Hr.
  apply (bit_after_run mmh3_hash uninitialised n p) in Hall; try assumption.
  apply (bit_after_run mmh3_hash uninitialised n p); try assumption.
  rewrite added_app. apply list_elem_of_In. rewrite flat_map_app.
  apply in_or_app. left. now apply list_elem_of_In.
Qed.

(** X4.  Adding an item for which [check] already returns [True] leaves
    the filter exactly as it was. *)
Theorem add_of_present_item_is_noop n p self0 ops item :
  init n p = Ok self0 ->
  outcome (check item) (final (run ops) self0) = Ok true ->
  final (add item) (final (run ops) self0) = final (run ops) self0.
Proof.
  intros E H. pose proof (init_wf _ _ _ _ E) as W.
  destruct (final_run_frame mmh3_hash ops self0 W) as [_ W'].
  set (self := final (run ops) self0) in *.
  unfold outcome, final in *.
  rewrite check_exact in H by assumption. simpl in H.
  rewrite add_exact by assumption. simpl.
  inversion H as [Hall]. rewrite forallb_true_iff in Hall.
  rewrite set_bits_all_set; [apply with_bits_id|].
  intros d Hd. apply bit_true_lookup, Hall, Hd.
Qed.

(** X5.  A sequence of calls sets at most [hash_count] bits per [add]:
    the number of set bits of the filter is at most the number of [add]
    calls times [hash_count]. *)
Theorem set_bits_at_most_rounds_per_add n p self0 ops :
  init n p = Ok self0 ->
  (popcount (bit_array (final (run ops) self0))
   <= length (added ops) * Z.to_nat (hash_count self0))%nat.
Proof.
  intros E. pose proof (init_wf _ _ _ _ E) as W.
  rewrite final_run_bits by assumption. simpl.
  etransitivity; [apply popcount_set_bits|].
  rewrite length_all_digests.
  apply init_inv in E as (_ & _ & _ & ->). simpl.
  rewrite popcount_replicate_false. lia.
Qed.

End Further.

Section FurtherConstruction.

Variable mmh3_hash : string -> Z -> Z.
Variables uninitialised uninitialised' : nat -> bool.

(** X6.  The constructor leaves nothing of the uninitialised contents of
    the bit array: its result, value or exception, is the same whatever
    they were, and the new filter has [size] bits, all of them [False],
    and [fp_prob] as given. *)
Theorem constructor_clears_bits n p :
  init uninitialised n p = init uninitialised' n p
  /\ forall self,
       init uninitialised n p = Ok self ->
       fp_prob self = p
       /\ bit_array self = replicate (Z.to_nat (size self)) false.
Proof.
  split.
  - unfold init. destruct (get_size n p) as [sz|e]; [cbn | reflexivity].
    destruct (get_hash_count sz n) as [hc|e]; [cbn | reflexivity].
    unfold bitarray. destruct (sz <? 0); [reflexivity|]. cbn.
    now rewrite !setall_false, !length_map.
  - intros self E. apply init_inv in E as (_ & _ & _ & ->). auto.
Qed.



(** X11.  A negative [items_count] is not rejected: whenever the
    construction succeeds with [items_count <= -1], the filter has no
    hashing round, so [add] changes nothing and [check] returns [True]
    for every item. *)
Theorem negative_items_count_degenerate n p self :
  init uninitialised n p = Ok self -> n <= -1 ->
  hash_count self <= 0
  /\ forall item,
       add mmh3_hash item self = (Ok tt, self, [])
       /\ check mmh3_hash item self = (Ok true, self, []).
Proof.
  intros E Hn.
  assert (Hk : hash_count self <= 0).
  { apply init_inv in E as (_ & _ & Hs & ->). simpl.
    unfold derived_hash_count. apply int_of_float_nonpos.
    pose proof ln2_pos. apply IZR_le in Hs, Hn.
    assert (Hinv : (/ IZR n < 0)%R) by (apply Rinv_lt_0_compat; lra).
    assert (Hq : (IZR (derived_size n p) / IZR n <= 0)%R)
      by (unfold Rdiv; nra).
    nra. }
  split; [assumption|]. intros item. split.
  - now apply add_nonpos_rounds.
  - now apply check_nonpos_rounds.
Qed.

End FurtherConstruction.

(** * Instances of the further properties *)

Local Open Scope string_scope.

Lemma init_m1_2 uninitialised : init uninitialised (-1) 2 = Ok filter_m1_2.
Proof.
  pose proof LnBoundsFacts.ln2_bounds as [L1 L2].
  assert (Hs : derived_size (-1) 2 = 1).
  { unfold derived_size.
    replace (- (-1 * ln 2) / ln 2 ^ 2)%R with (/ ln 2)%R by (field; lra).
    assert (H1 : (1 <= / ln 2)%R).
    { apply Rmult_le_reg_r with (ln 2); [lra|]. rewrite Rinv_l by lra. lra. }
    assert (H2 : (/ ln 2 < 2)%R).
    { apply Rmult_lt_reg_r with (ln 2); [lra|]. rewrite Rinv_l by lra. lra. }
    apply int_of_float_eq; lra. }
  assert (Hk : derived_hash_count (-1) 2 = 0).
  { unfold derived_hash_count. rewrite Hs. unfold Py.int_of_float.
    destruct (Rle_dec 0 (1 / -1 * ln 2)) as [H|H]; [lra|].
    apply Zceil_eq. simpl. lra. }
  rewrite init_ok; [| lra | discriminate | rewrite Hs; lia].
  rewrite Hk, Hs. reflexivity.
Qed.

Lemma state_depends_on_added_items_witness :
  final (run Murmur3.mmh3_hash
           [CallAdd "abound"; CallCheck "abundant"; CallAdd "abounds";
            CallAdd "abound"]) filter_20_005
  = final (run Murmur3.mmh3_hash [CallAdd "abounds"; CallAdd "abound"])
          filter_20_005.
Proof.
  apply (state_depends_on_added_items Murmur3.mmh3_hash ones 20 (5 / 100)).
  - apply init_20_005.
  - intros item. rewrite !elem_of_cons, !elem_of_nil. intuition congruence.
Defined.

Lemma check_true_iff_covered_witness :
  outcome (check Murmur3.mmh3_hash "abundant")
          (final (run Murmur3.mmh3_hash [CallAdd "abound"]) filter_20_005)
  = Ok true
  <-> forall d,
        d ∈ hash_indices Murmur3.mmh3_hash "abundant" 4 124 ->
        exists x, CallAdd x ∈ [CallAdd "abound"]
                  /\ d ∈ hash_indices Murmur3.mmh3_hash x 4 124.
Proof.
  apply (check_true_iff_covered Murmur3.mmh3_hash ones 20 (5 / 100)
           filter_20_005 [CallAdd "abound"] "abundant").
  apply init_20_005.
Defined.

Lemma positive_answer_persists_witness :
  outcome (check Murmur3.mmh3_hash "abound")
          (final (run Murmur3.mmh3_hash
                    ([CallAdd "abound"] ++ [CallAdd "abounds"])%list)
                 filter_20_005)
  = Ok true.
Proof.
  apply (positive_answer_persists Murmur3.mmh3_hash ones 20 (5 / 100)).
  - apply init_20_005.
  - vm_compute. reflexivity.
Defined.

Lemma add_of_present_item_is_noop_witness :
  final (add Murmur3.mmh3_hash "abound")
        (final (run Murmur3.mmh3_hash [CallAdd "abound"]) filter_20_005)
  = final (run Murmur3.mmh3_hash [CallAdd "abound"]) filter_20_005.
Proof.
  apply (add_of_present_item_is_noop Murmur3.mmh3_hash ones 20 (5 / 100)).
  - apply init_20_005.
  - vm_compute. reflexivity.
Defined.

Lemma set_bits_at_most_rounds_per_add_witness :
  (popcount (bit_array
               (final (run Murmur3.mmh3_hash
                         [CallAdd "abound"; CallAdd "abounds"])
                      filter_20_005))
   <= 2 * 4)%nat.
Proof.
  apply (set_bits_at_most_rounds_per_add Murmur3.mmh3_hash ones 20 (5 / 100)
           filter_20_005 [CallAdd "abound"; CallAdd "abounds"]).
  apply init_20_005.
Defined.



Lemma negative_items_count_degenerate_witness :
  hash_count filter_m1_2 <= 0
  /\ forall item,
       add Murmur3.mmh3_hash item filter_m1_2 = (Ok tt, filter_m1_2, [])
       /\ check Murmur3.mmh3_hash item filter_m1_2 = (Ok true, filter_m1_2, []).
Proof.
  apply (negative_items_count_degenerate Murmur3.mmh3_hash ones (-1) 2).
  - apply init_m1_2.
  - lia.
Defined.
